(** * Verification of the FAQ helpers of [product_faq_app.py]

    Shallow embedding of the pure helpers of the product FAQ generator:
    the FAQ parser [faqs_to_jsonld], the uniqueness checker
    [check_faq_uniqueness], the keyword extractor
    [extract_seo_keywords_from_serp] and the prompt assembly of
    [generate_product_faqs].

    Python [str] values are modelled as lists of ASCII characters. The
    Python character classes used by the code ([str.isspace], the [\s],
    [\d] and [.] classes of [re]) are restricted to their ASCII members. *)

From Stdlib Require Import Ascii String List Arith Lia Bool Permutation.
Import ListNotations.

Set Warnings "-register-all".

Definition str := list ascii.

(** String literals of the source. *)
Definition s2l (s : string) : str := list_ascii_of_string s.

Definition nl : ascii := ascii_of_nat 10.
Definition qm : ascii := "?"%char.
Definition sp : ascii := " "%char.
Definition dot : ascii := "."%char.

(** [str.isspace] on ASCII: [\t \n \v \f \r], the separators [\x1c-\x1f]
    and the space. The [\s] class of [re] for [str] patterns is the same. *)
Definition is_space (c : ascii) : bool :=
  let n := nat_of_ascii c in
  ((9 <=? n) && (n <=? 13)) || ((28 <=? n) && (n <=? 32)).

(** The [\d] class of [re] (ASCII digits). *)
Definition is_digit (c : ascii) : bool :=
  let n := nat_of_ascii c in (48 <=? n) && (n <=? 57).

(** The [.] class of [re]: any character but a newline. *)
Definition is_any (c : ascii) : bool := negb (Ascii.eqb c nl).

Definition is_char (d c : ascii) : bool := Ascii.eqb c d.

(** [str.lstrip()], [str.rstrip()], [str.strip()]. *)
Fixpoint lstrip (s : str) : str :=
  match s with
  | [] => []
  | c :: s' => if is_space c then lstrip s' else s
  end.

Definition rstrip (s : str) : str := rev (lstrip (rev s)).

Definition strip (s : str) : str := rstrip (lstrip s).

(** [str.lower()] on ASCII. *)
Definition lower_char (c : ascii) : ascii :=
  let n := nat_of_ascii c in
  if (65 <=? n) && (n <=? 90) then ascii_of_nat (n + 32) else c.

Definition lower (s : str) : str := map lower_char s.

(** [s.split(sep)] with a one-character separator: never empty. *)
Fixpoint split_on (sep : ascii) (s : str) : list str :=
  match s with
  | [] => [[]]
  | c :: s' =>
      let parts := split_on sep s' in
      if Ascii.eqb c sep then [] :: parts
      else match parts with
           | p :: ps => (c :: p) :: ps
           | [] => [[c]]
           end
  end.

(** [sep.join(parts)]. *)
Fixpoint join (sep : str) (parts : list str) : str :=
  match parts with
  | [] => []
  | [p] => p
  | p :: ps => p ++ sep ++ join sep ps
  end.

(** [s.split()] without argument: maximal runs of non-whitespace. *)
Fixpoint words_acc (cur : str) (s : str) : list str :=
  match s with
  | [] => match cur with [] => [] | _ => [rev cur] end
  | c :: s' =>
      if is_space c
      then match cur with [] => words_acc [] s' | _ => rev cur :: words_acc [] s' end
      else words_acc (c :: cur) s'
  end.

Definition words (s : str) : list str := words_acc [] s.

(** [x in y] for two strings. *)
Fixpoint is_prefix (x y : str) : bool :=
  match x, y with
  | [], _ => true
  | _ :: _, [] => false
  | a :: x', b :: y' => Ascii.eqb a b && is_prefix x' y'
  end.

Fixpoint is_sub (x y : str) : bool :=
  is_prefix x y || match y with [] => false | _ :: y' => is_sub x y' end.

(** ** Backtracking matcher of [re.match]

    The pattern of the parser, [\d+\.\s*(.+?)\?\s*(.+)], is a sequence of
    single-character classes, each with a quantifier and possibly a
    capturing group around it. [re.match] anchors the match at the start of
    the string (not at its end) and explores the choices in backtracking
    order: a greedy quantifier tries the longest run first, a lazy one the
    shortest; the first successful choice wins. *)
Inductive quant := One | Star | Plus | LazyPlus.

Inductive atom := Atom (cls : ascii -> bool) (q : quant) (cap : bool).

(** Length of the longest prefix of [s] in the class [p]. *)
Fixpoint run_len (p : ascii -> bool) (s : str) : nat :=
  match s with
  | [] => 0
  | c :: s' => if p c then S (run_len p s') else 0
  end.

(** The repetition counts a quantifier tries, in order, when [n] characters
    in its class are available. *)
Definition counts (q : quant) (n : nat) : list nat :=
  match q with
  | One => if n =? 0 then [] else [1]
  | Star => rev (seq 0 (S n))
  | Plus => rev (seq 1 n)
  | LazyPlus => seq 1 n
  end.

Fixpoint first_some {A B : Type} (f : A -> option B) (l : list A) : option B :=
  match l with
  | [] => None
  | a :: l' => match f a with Some b => Some b | None => first_some f l' end
  end.

(** The captured groups of the first match, in order. *)
Fixpoint match_atoms (ps : list atom) (s : str) : option (list str) :=
  match ps with
  | [] => Some []
  | Atom cls q cap :: ps' =>
      first_some
        (fun k => match match_atoms ps' (skipn k s) with
                  | Some caps => Some (if cap then firstn k s :: caps else caps)
                  | None => None
                  end)
        (counts q (run_len cls s))
  end.

(** [r"\d+\.\s*(.+?)\?\s*(.+)"] *)
Definition faq_line_re : list atom :=
  [ Atom is_digit Plus false;
    Atom (is_char dot) One false;
    Atom is_space Star false;
    Atom is_any LazyPlus true;
    Atom (is_char qm) One false;
    Atom is_space Star false;
    Atom is_any Plus true ].

(** [re.match(faq_line_re, line)] followed by [match.groups()]. *)
Definition re_match_groups (line : str) : option (str * str) :=
  match match_atoms faq_line_re line with
  | Some [q; a] => Some (q, a)
  | _ => None
  end.

(** ** The FAQ parser of [faqs_to_jsonld] *)

(** A parsed pair [{"question": ..., "answer": ...}]. *)
Definition faq_pair := (str * str)%type.

(** The loop over [faqs.split('\n')]. *)
Fixpoint strict_pairs_lines (lines : list str) : list faq_pair :=
  match lines with
  | [] => []
  | line :: lines' =>
      match re_match_groups line with
      | Some (question, answer) =>
          (strip question ++ [qm], strip answer) :: strict_pairs_lines lines'
      | None => strict_pairs_lines lines'
      end
  end.

Definition strict_pairs (faqs : str) : list faq_pair :=
  strict_pairs_lines (split_on nl faqs).

(** [for i in range(0, len(parts)-1, 2)]: the pairs [(parts[i], parts[i+1])]
    for even [i] while [parts[i+1]] exists. *)
Fixpoint pair_up (parts : list str) : list faq_pair :=
  match parts with
  | p :: p' :: rest => (strip p ++ [qm], strip p') :: pair_up rest
  | _ => []
  end.

Definition fallback_pairs (faqs : str) : list faq_pair :=
  pair_up (split_on qm faqs).

(** [qas] after both stages: the fallback runs only when [qas] is empty. *)
Definition parse_faqs (faqs : str) : list faq_pair :=
  match strict_pairs faqs with
  | [] => fallback_pairs faqs
  | qas => qas
  end.

(** The JSON-LD document, before [json.dumps] serialises it. *)
Inductive json :=
| JString (s : str)
| JObject (fields : list (str * json))
| JArray (items : list json).

Definition faq_entry (qa : faq_pair) : json :=
  JObject [ (s2l "@type", JString (s2l "Question"));
            (s2l "name", JString (fst qa));
            (s2l "acceptedAnswer",
              JObject [ (s2l "@type", JString (s2l "Answer"));
                        (s2l "text", JString (snd qa)) ]) ].

Definition faqs_to_jsonld (faqs product_keywords : str) : json :=
  JObject [ (s2l "@context", JString (s2l "https://schema.org"));
            (s2l "@type", JString (s2l "FAQPage"));
            (s2l "mainEntity", JArray (map faq_entry (parse_faqs faqs))) ].

(** ** The search context (the JSON body of the search service)

    A key absent from the body reads as [None] through [dict.get]. *)
Record organic_item := {
  title : option str;
  snippet : option str;
  link : option str
}.

Record related_search := { query : option str }.

Record search_context := {
  organic : option (list organic_item);
  relatedSearches : option (list related_search);
  peopleAlsoAsk : option (list str)
}.

(** [item.get(key, "")] *)
Definition get_str (o : option str) : str :=
  match o with Some s => s | None => [] end.

(** [serp_results.get("organic", [])] *)
Definition organic_or_nil (ctx : search_context) : list organic_item :=
  match organic ctx with Some l => l | None => [] end.

Definition str_eqb (x y : str) : bool :=
  if list_eq_dec ascii_dec x y then true else false.

Definition is_nil {A : Type} (l : list A) : bool :=
  match l with [] => true | _ => false end.

(** ** [check_faq_uniqueness] *)

Definition serp_text (ctx : search_context) : str :=
  lower (join [sp] (map (fun item => get_str (title item) ++ [sp] ++ get_str (snippet item))
                        (organic_or_nil ctx))).

Definition check_faq_uniqueness (faqs : str) (ctx : search_context) : list (str * bool) :=
  let serp := serp_text ctx in
  map (fun line => (line, negb (is_sub (lower (strip line)) serp))) (split_on nl faqs).

(** The display loop of [main]: a line is shown with the duplicate marker
    unless [is_unique or not line.strip()]. *)
Definition display_flagged (line : str) (is_unique : bool) : bool :=
  negb (is_unique || is_nil (strip line)).

(** ** [extract_seo_keywords_from_serp]

    The Python [set] is modelled by its contents in insertion order
    ([set_add] is [keywords.add]); [list(keywords)] enumerates them in the
    set's iteration order, which depends on the string hashes (randomised
    per process) and is abstracted as [set_iter], a permutation. *)
Definition set_add (k : str) (s : list str) : list str :=
  if existsb (str_eqb k) s then s else s ++ [k].

(** [for word in text.split(): if len(word) > 3: keywords.add(word.lower())] *)
Definition add_words (text : str) (kws : list str) : list str :=
  fold_left (fun acc word => if 3 <? length word then set_add (lower word) acc else acc)
            (words text) kws.

Definition keyword_set (ctx : search_context) : list str :=
  let kws :=
    match organic ctx with
    | Some ((_ :: _) as items) =>
        fold_left (fun acc item =>
                     add_words (get_str (snippet item)) (add_words (get_str (title item)) acc))
                  items []
    | _ => []
    end in
  match relatedSearches ctx with
  | Some ((_ :: _) as rs) => fold_left (fun acc s => add_words (get_str (query s)) acc) rs kws
  | _ => kws
  end.

Section Keywords.

Variable set_iter : list str -> list str.

Definition extract_seo_keywords_from_serp (ctx : search_context) : list str :=
  firstn 15 (set_iter (keyword_set ctx)).

End Keywords.

(** The order the keyword list is described with: first appearance over all
    organic titles, then all organic snippets, then all related-search
    queries, truncated to 15. *)
Definition qualifying_tokens (texts : list str) : list str :=
  map lower (filter (fun w => 3 <? length w) (flat_map words texts)).

Definition dedup (l : list str) : list str := fold_left (fun acc k => set_add k acc) l [].

Definition all_tokens (ctx : search_context) : list str :=
  qualifying_tokens (map (fun it => get_str (title it)) (organic_or_nil ctx))
  ++ qualifying_tokens (map (fun it => get_str (snippet it)) (organic_or_nil ctx))
  ++ qualifying_tokens (map (fun s => get_str (query s))
                            (match relatedSearches ctx with Some l => l | None => [] end)).

Definition keywords_first_appearance (ctx : search_context) : list str :=
  firstn 15 (dedup (all_tokens ctx)).

(** ** The prompt of [generate_product_faqs]

    [details_section] and [serp_prompt] are the strings the function builds
    from the scraped page and from [format_serp_for_prompt]; [faq_count] is
    the decimal text of the count. *)
Definition tone_section (faq_tone : str) : str :=
  if negb (is_nil faq_tone) && negb (str_eqb faq_tone (s2l "Default"))
  then nl :: s2l "Tone/Style: " ++ faq_tone ++ s2l "."
  else [].

Definition length_section (faq_length : str) : str :=
  if str_eqb faq_length (s2l "Short (20-30 words)")
  then nl :: s2l "Each answer should be 20-30 words."
  else if str_eqb faq_length (s2l "Medium (40-50 words)")
  then nl :: s2l "Each answer should be 40-50 words."
  else if str_eqb faq_length (s2l "Long (60+ words)")
  then nl :: s2l "Each answer should be at least 60 words."
  else [].

Definition seo_section (include_seo_keywords : bool) (seo_keywords : list str) : str :=
  if include_seo_keywords && negb (is_nil seo_keywords)
  then nl :: s2l "Incorporate these SEO keywords naturally: " ++ join (s2l ", ") seo_keywords
          ++ s2l "."
  else [].

Definition prompt_header (product_keywords ecommerce_platform faq_language faq_count : str) : str :=
  s2l "You are an expert e-commerce content writer. Generate " ++ faq_count
  ++ s2l " unique, concise FAQs for the product '" ++ product_keywords ++ s2l "' on "
  ++ ecommerce_platform ++ s2l ". "
  ++ s2l "Use the following SERP research and product details for inspiration. Write in "
  ++ faq_language ++ s2l ". Format as a numbered list for easy copy-paste.".

Definition build_prompt (product_keywords ecommerce_platform faq_language faq_count : str)
    (faq_tone faq_length : str) (include_seo_keywords : bool) (seo_keywords : list str)
    (details_section serp_prompt : str) : str :=
  prompt_header product_keywords ecommerce_platform faq_language faq_count
  ++ tone_section faq_tone ++ length_section faq_length
  ++ seo_section include_seo_keywords seo_keywords ++ [nl; nl]
  ++ details_section ++ [nl] ++ serp_prompt ++ [nl].

(** The options of the tone and length select boxes of [main]. *)
Definition tone_options : list str :=
  map s2l ["Default"; "Professional"; "Casual"; "Persuasive"; "Informative"]%string.

Definition length_options : list str :=
  map s2l ["Default"; "Short (20-30 words)"; "Medium (40-50 words)"; "Long (60+ words)"]%string.

(** A numbered FAQ line [<index>. <question text>? <answer text>]. *)
Definition numbered_line (e : str * str * str) : str :=
  let '(i, q, a) := e in i ++ dot :: sp :: q ++ qm :: sp :: a.

(** The index is a non-empty run of digits, the question text is not blank
    and has no ['?'], and neither text spans lines. *)
Definition well_formed_entry (e : str * str * str) : Prop :=
  let '(i, q, a) := e in
  (i <> []) /\ (forall c, In c i -> is_digit c = true) /\
  ~ In qm q /\ ~ In nl q /\ (strip q <> []) /\ ~ In nl a.

(** The pair the description promises for such a line. *)
Definition expected_pair (e : str * str * str) : faq_pair :=
  let '(i, q, a) := e in (strip q ++ [qm], strip a).

(** The generation-service output of the end-to-end scenario. *)
Definition earbuds_output : str :=
  join [nl] (map s2l ["1. Are they waterproof? Yes, IPX5 rated.";
                      "2. Battery life? Up to 8 hours.";
                      "3. Warranty? One year."]%string).

(** A [mainEntity] item of the FAQPage schema. *)
Definition schema_question (name text : string) : json :=
  JObject [ (s2l "@type", JString (s2l "Question"));
            (s2l "name", JString (s2l name));
            (s2l "acceptedAnswer",
              JObject [ (s2l "@type", JString (s2l "Answer"));
                        (s2l "text", JString (s2l text)) ]) ].

Definition fallback_sample : str := s2l "What is X?Answer A.What is Y?Answer B.".

(** The text the uniqueness contract is stated against: the organic titles
    and snippets, joined with single spaces. *)
Definition organic_texts_joined (ctx : search_context) : str :=
  join [sp] (flat_map (fun it => [get_str (title it); get_str (snippet it)])
                      (organic_or_nil ctx)).

Definition empty_context : search_context :=
  {| organic := None; relatedSearches := None; peopleAlsoAsk := None |}.

Definition order_sample : search_context :=
  {| organic := Some [{| title := Some (s2l "abcd efgh"); snippet := None; link := None |}];
     relatedSearches := None; peopleAlsoAsk := None |}.

Definition keyword_sample : search_context :=
  {| organic := Some [{| title := Some (s2l "Best Wireless Earbuds 2024");
                         snippet := Some (s2l "Top rated earbuds with noise cancelling");
                         link := Some (s2l "https://example.com") |}];
     relatedSearches := Some [{| query := Some (s2l "earbuds under 50") |}];
     peopleAlsoAsk := None |}.

(** The boolean check of [well_formed_entry]. *)
Definition well_formed_entryb (e : str * str * str) : bool :=
  let '(i, q, a) := e in
  negb (is_nil i) && forallb is_digit i && negb (existsb (is_char qm) q)
  && negb (existsb (is_char nl) q) && negb (is_nil (strip q))
  && negb (existsb (is_char nl) a).

(** The qualifying tokens of one text. *)
Definition tok (text : str) : list str :=
  map lower (filter (fun w => 3 <? length w) (words text)).

(** One organic item and one related search, as the loops of
    [extract_seo_keywords_from_serp] process them. *)
Definition organic_step (acc : list str) (item : organic_item) : list str :=
  add_words (get_str (snippet item)) (add_words (get_str (title item)) acc).

Definition related_step (acc : list str) (s : related_search) : list str :=
  add_words (get_str (query s)) acc.

Definition related_or_nil (ctx : search_context) : list related_search :=
  match relatedSearches ctx with Some l => l | None => [] end.

(** The text of the length clause for a non-default length option. *)
Definition length_clause (faq_length : str) : str :=
  if str_eqb faq_length (s2l "Short (20-30 words)")
  then s2l "Each answer should be 20-30 words."
  else if str_eqb faq_length (s2l "Medium (40-50 words)")
  then s2l "Each answer should be 40-50 words."
  else s2l "Each answer should be at least 60 words.".

(** ** [format_serp_for_prompt] *)

(** [str(n)] for a natural number: its decimal digits. *)
Fixpoint uint_str (u : Decimal.uint) : str :=
  match u with
  | Decimal.Nil => []
  | Decimal.D0 u' => "0"%char :: uint_str u'
  | Decimal.D1 u' => "1"%char :: uint_str u'
  | Decimal.D2 u' => "2"%char :: uint_str u'
  | Decimal.D3 u' => "3"%char :: uint_str u'
  | Decimal.D4 u' => "4"%char :: uint_str u'
  | Decimal.D5 u' => "5"%char :: uint_str u'
  | Decimal.D6 u' => "6"%char :: uint_str u'
  | Decimal.D7 u' => "7"%char :: uint_str u'
  | Decimal.D8 u' => "8"%char :: uint_str u'
  | Decimal.D9 u' => "9"%char :: uint_str u'
  end.

Definition dec (n : nat) : str := uint_str (Nat.to_uint n).

(** An f-string field holding a value that may be [None], which prints as
    ["None"]. *)
Definition py_str (o : option str) : str :=
  match o with Some s => s | None => s2l "None" end.

(** [for idx, item in enumerate(items, idx0)]: one line
    ["<idx>. <title>: <snippet>"] per item. *)
Fixpoint organic_lines (idx : nat) (items : list organic_item) : str :=
  match items with
  | [] => []
  | item :: items' =>
      dec idx ++ s2l ". " ++ get_str (title item) ++ s2l ": " ++ get_str (snippet item) ++ [nl]
      ++ organic_lines (S idx) items'
  end.

(** One line ["- <text>"] per text. *)
Definition bullet_lines (texts : list str) : str :=
  concat (map (fun t => s2l "- " ++ t ++ [nl]) texts).

(** [people_also_ask] is the list [get_serp_results] builds; an entry is
    [None] when its item has no ["question"] key. *)
Definition format_serp_for_prompt (serp_results : search_context)
    (people_also_ask : list (option str)) : str :=
  let organic_part :=
    match organic serp_results with
    | Some ((_ :: _) as items) =>
        s2l "Top Organic Results:" ++ [nl] ++ organic_lines 1 (firstn 5 items)
    | _ => []
    end in
  let related_part :=
    match relatedSearches serp_results with
    | Some ((_ :: _) as rs) =>
        [nl] ++ s2l "Related Searches:" ++ [nl] ++ bullet_lines (map (fun s => get_str (query s)) rs)
    | _ => []
    end in
  let paa_part :=
    match people_also_ask with
    | [] => []
    | _ => [nl] ++ s2l "People Also Ask:" ++ [nl] ++ bullet_lines (map py_str people_also_ask)
    end in
  strip (organic_part ++ related_part ++ paa_part).

(** ** [extract_competitors_from_serp] *)

Record competitor := {
  comp_title : str;
  comp_url : str;
  comp_snippet : str
}.

Definition competitor_of (item : organic_item) : competitor :=
  {| comp_title := get_str (title item);
     comp_url := get_str (link item);
     comp_snippet := get_str (snippet item) |}.

Definition extract_competitors_from_serp (serp_results : search_context) : list competitor :=
  match organic serp_results with
  | Some ((_ :: _) as items) => map competitor_of (firstn 5 items)
  | _ => []
  end.

(** ** API keys and the search request

    [user_key or os.getenv(NAME)] followed by [if not key]: the key typed in
    the sidebar when it is not empty, else the environment variable when it
    is set and not empty. *)
Definition api_key (user_key : str) (env_key : option str) : option str :=
  match user_key with
  | _ :: _ => Some user_key
  | [] => match env_key with Some (c :: k) => Some (c :: k) | _ => None end
  end.

(** What [requests.post] gives: an exception, or a response with its status
    code and its body ([None] when [response.json()] raises). *)
Inductive http_outcome :=
| RequestFailed
| HttpResponse (status_code : nat) (body : option search_context).

(** [{"peopleAlsoAsk": [], "relatedQuestions": [], "relatedSearches": []}];
    ["relatedQuestions"] is read by no function and has no field. *)
Definition search_fallback : search_context :=
  {| organic := None; relatedSearches := Some []; peopleAlsoAsk := Some [] |}.

(** [post query key] is the service's answer to the request for [query]
    sent with [key]. *)
Definition perform_serperdev_google_search (query user_key : str) (env_key : option str)
    (post : str -> str -> http_outcome) : search_context :=
  match api_key user_key env_key with
  | None => search_fallback
  | Some key =>
      match post query key with
      | HttpResponse code (Some body) => if code =? 200 then body else search_fallback
      | _ => search_fallback
      end
  end.

(** [get_serp_results]. The items of ["peopleAlsoAsk"] are kept abstract in
    [search_context]; [paa_question] is [item.get("question")] on one of
    them. *)
Section Research.

Variable paa_question : str -> option str.

Definition people_also_ask_of (serp_results : search_context) : list (option str) :=
  map paa_question (match peopleAlsoAsk serp_results with Some l => l | None => [] end).

Definition get_serp_results (product_keywords user_key : str) (env_key : option str)
    (post : str -> str -> http_outcome) : search_context * list (option str) :=
  let serp_results := perform_serperdev_google_search product_keywords user_key env_key post in
  (serp_results, people_also_ask_of serp_results).

End Research.

(** The truth value of the [serp_results] dict in [main]. Keys outside the
    record are not represented: for a context with all three fields absent
    the keyword extractor returns [[]] whichever branch is taken. *)
Definition ctx_truthy (ctx : search_context) : bool :=
  match organic ctx, relatedSearches ctx, peopleAlsoAsk ctx with
  | None, None, None => false
  | _, _, _ => true
  end.

(** The research step of [main]: [serp_results], [people_also_ask],
    [seo_keywords] and [competitors]. *)
Definition main_research (paa_question : str -> option str) (set_iter : list str -> list str)
    (product_keywords user_key : str) (env_key : option str)
    (post : str -> str -> http_outcome)
    : search_context * list (option str) * list str * list competitor :=
  let '(serp_results, people_also_ask) :=
    if is_nil product_keywords then (empty_context, [])
    else get_serp_results paa_question product_keywords user_key env_key post in
  let seo_keywords :=
    if ctx_truthy serp_results then extract_seo_keywords_from_serp set_iter serp_results else [] in
  (serp_results, people_also_ask, seo_keywords, extract_competitors_from_serp serp_results).

(** ** [generate_text_with_exception_handling]

    [send key prompt] is the generation service's answer. Every exception
    of the body is caught and turned into [None], so the [@retry] decorator
    never sees one and the body runs once. *)
Inductive gen_outcome :=
| Reply (text : str)
| GenFailed.

Definition generate_text_with_exception_handling (prompt user_key : str) (env_key : option str)
    (send : str -> str -> gen_outcome) : option str :=
  match api_key user_key env_key with
  | None => None
  | Some key =>
      match send key prompt with
      | Reply text => Some text
      | GenFailed => None
      end
  end.

(** ** [extract_product_details_from_url]

    The page is given by what the BeautifulSoup queries of the function
    return: the stripped text of the [<title>] tag, the [content] of the
    description [<meta>] tag, the stripped texts of the [<li>] items of each
    [<ul>] in document order, and for each price and rating selector in turn
    the stripped text of the first tag it finds ([None] if none). *)
Record page := {
  pg_title : option str;
  pg_description : option str;
  pg_lists : list (list str);
  pg_price_hits : list (option str);
  pg_rating_hits : list (option str)
}.

(** [requests.get]: an exception, or the status code and the parsed page. *)
Inductive fetch_outcome :=
| FetchFailed
| Fetched (status_code : nat) (pg : page).

Record product_details := {
  pd_title : str;
  pd_description : str;
  pd_features : list str;
  pd_price : str;
  pd_rating : str
}.

(** [if text and len(text) > 25 and len(features) < 10: features.append(text)] *)
Definition add_feature (features : list str) (text : str) : list str :=
  if negb (is_nil text) && (25 <? length text) && (length features <? 10)
  then features ++ [text] else features.

(** The loop over the [<ul>] tags, left at the first one that added a
    feature. *)
Fixpoint collect_features (uls : list (list str)) (features : list str) : list str :=
  match uls with
  | [] => features
  | ul :: uls' =>
      let features' := fold_left add_feature ul features in
      if is_nil features' then collect_features uls' features' else features'
  end.

(** The selector loops: the text of the first selector that finds a tag. *)
Fixpoint first_found (hits : list (option str)) : str :=
  match hits with
  | [] => []
  | Some t :: _ => t
  | None :: hits' => first_found hits'
  end.

(** [{}] is [None]. *)
Definition extract_product_details_from_url (r : fetch_outcome) : option product_details :=
  match r with
  | FetchFailed => None
  | Fetched code pg =>
      if code =? 200 then
        Some {| pd_title := get_str (pg_title pg);
                pd_description := match pg_description pg with Some c => strip c | None => [] end;
                pd_features := collect_features (pg_lists pg) [];
                pd_price := first_found (pg_price_hits pg);
                pd_rating := first_found (pg_rating_hits pg) |}
      else None
  end.

(** ** The rest of [generate_product_faqs] *)

Definition details_section (product_details : option product_details) : str :=
  match product_details with
  | None => []
  | Some d =>
      s2l "Product Details from URL:" ++ [nl]
      ++ (if is_nil (pd_title d) then [] else s2l "Title: " ++ pd_title d ++ [nl])
      ++ (if is_nil (pd_description d) then [] else s2l "Description: " ++ pd_description d ++ [nl])
      ++ (if is_nil (pd_features d) then [] else s2l "Features:" ++ [nl] ++ bullet_lines (pd_features d))
      ++ (if is_nil (pd_price d) then [] else s2l "Price: " ++ pd_price d ++ [nl])
      ++ (if is_nil (pd_rating d) then [] else s2l "Rating: " ++ pd_rating d ++ [nl])
  end.

(** [fetch url] is the outcome of the request for the product page; the
    unused [user_serper_api_key] parameter is left out. *)
Definition generate_product_faqs (product_keywords ecommerce_platform user_gemini_key : str)
    (env_gemini_key : option str) (product_url : str) (fetch : str -> fetch_outcome)
    (serp_results : search_context) (people_also_ask : list (option str))
    (faq_language : str) (faq_count : nat) (faq_tone faq_length : str)
    (include_seo_keywords : bool) (seo_keywords : list str)
    (send : str -> str -> gen_outcome) : option str :=
  let product_details :=
    if is_nil product_url then None else extract_product_details_from_url (fetch product_url) in
  let serp_prompt := format_serp_for_prompt serp_results people_also_ask in
  let prompt :=
    build_prompt product_keywords ecommerce_platform faq_language (dec faq_count) faq_tone
      faq_length include_seo_keywords seo_keywords (details_section product_details) serp_prompt in
  generate_text_with_exception_handling prompt user_gemini_key env_gemini_key send.

(** ** The session state of [main] across reruns *)

Record input_state := {
  in_product_keywords : str;
  in_ecommerce_platform : str;
  in_product_url : str;
  in_faq_count : nat;
  in_faq_language : str;
  in_faq_tone : str;
  in_faq_length : str;
  in_include_seo_keywords : bool;
  in_seo_keywords : list str
}.

Definition strs_eqb (x y : list str) : bool :=
  if list_eq_dec (list_eq_dec ascii_dec) x y then true else false.

(** [!=] on the two dicts. *)
Definition input_state_eqb (a b : input_state) : bool :=
  str_eqb (in_product_keywords a) (in_product_keywords b)
  && str_eqb (in_ecommerce_platform a) (in_ecommerce_platform b)
  && str_eqb (in_product_url a) (in_product_url b)
  && Nat.eqb (in_faq_count a) (in_faq_count b)
  && str_eqb (in_faq_language a) (in_faq_language b)
  && str_eqb (in_faq_tone a) (in_faq_tone b)
  && str_eqb (in_faq_length a) (in_faq_length b)
  && Bool.eqb (in_include_seo_keywords a) (in_include_seo_keywords b)
  && strs_eqb (in_seo_keywords a) (in_seo_keywords b).

(** [st.session_state]; [jsonld] holds the document before [json.dumps]. *)
Record session := {
  last_input_state : option input_state;
  product_faqs : option str;
  jsonld : option json;
  faqs_ready : bool
}.

(** The session after the [not in st.session_state] initialisations. *)
Definition init_session : session :=
  {| last_input_state := None; product_faqs := None; jsonld := None; faqs_ready := false |}.

(** [if st.session_state['last_input_state'] != input_state: ...] *)
Definition detect_change (s : session) (inp : input_state) : session :=
  let cleared :=
    {| last_input_state := Some inp; product_faqs := None; jsonld := None; faqs_ready := false |} in
  match last_input_state s with
  | Some last => if input_state_eqb last inp then s else cleared
  | None => cleared
  end.

(** The generate button: [clicked] tells whether it was pressed in this run
    and [generated] is what [generate_product_faqs] returned. *)
Definition generate_click (s : session) (inp : input_state) (clicked : bool)
    (generated : option str) : session :=
  if clicked then
    if is_nil (in_product_keywords inp) && is_nil (in_product_url inp) then s
    else match generated with
         | Some (c :: f) =>
             {| last_input_state := last_input_state s;
                product_faqs := Some (c :: f);
                jsonld := Some (faqs_to_jsonld (c :: f) (in_product_keywords inp));
                faqs_ready := true |}
         | _ => s
         end
  else s.

(** One run of [main] over the session. *)
Definition main_run (s : session) (inp : input_state) (clicked : bool) (generated : option str)
    : session :=
  generate_click (detect_change s inp) inp clicked generated.

(** [if st.session_state.get('faqs_ready') and st.session_state.get('product_faqs')]:
    the FAQs the results section shows. *)
Definition shown_faqs (s : session) : option str :=
  if faqs_ready s then
    match product_faqs s with Some (c :: f) => Some (c :: f) | _ => None end
  else None.

Definition run_event (s : session) (e : input_state * bool * option str) : session :=
  let '(inp, clicked, generated) := e in main_run s inp clicked generated.

(** The session after a sequence of runs of the app. *)
Definition main_runs (events : list (input_state * bool * option str)) : session :=
  fold_left run_event events init_session.

Example ex_parse1 :
  parse_faqs (s2l "1. Are they waterproof? Yes, IPX5 rated.")
  = [(s2l "Are they waterproof?", s2l "Yes, IPX5 rated.")].
Proof. vm_compute. reflexivity. Qed.

Example ex_parse2 :
  parse_faqs (s2l "What is X?Answer A.What is Y?Answer B.")
  = [(s2l "What is X?", s2l "Answer A.What is Y")].
Proof. vm_compute. reflexivity. Qed.

Example ex_parse3 :
  parse_faqs (s2l "1. ?? A") = [(s2l "??", s2l "A")].
Proof. vm_compute. reflexivity. Qed.

(** * Proofs *)

(** ** [first_some] *)

Lemma first_some_split {A B : Type} (f : A -> option B) l b :
  first_some f l = Some b ->
  exists l1 a l2, l = l1 ++ a :: l2 /\ (forall x, In x l1 -> f x = None) /\ f a = Some b.
Proof.
  induction l as [|a l IH]; simpl; intros H; [discriminate|].
  destruct (f a) as [b'|] eqn:Ha.
  - injection H as <-. exists [], a, l. split; [reflexivity|].
    split; [intros x []|exact Ha].
  - destruct (IH H) as (l1 & a' & l2 & -> & Hn & Hs).
    exists (a :: l1), a', l2. split; [reflexivity|]. split; [|exact Hs].
    intros x [<-|Hx]; [exact Ha|apply Hn, Hx].
Qed.

Lemma first_some_in {A B : Type} (f : A -> option B) l b :
  first_some f l = Some b -> exists a, In a l /\ f a = Some b.
Proof.
  intros H. destruct (first_some_split f l b H) as (l1 & a & l2 & -> & _ & Hs).
  exists a. split; [apply in_or_app; right; left; reflexivity|exact Hs].
Qed.

Lemma first_some_exists {A B : Type} (f : A -> option B) l a b :
  In a l -> f a = Some b -> exists b', first_some f l = Some b'.
Proof.
  induction l as [|x l IH]; simpl; intros Hin Ha; [destruct Hin|].
  destruct (f x) as [b'|] eqn:Hx; [eauto|].
  destruct Hin as [->|Hin]; [congruence|]. apply IH; assumption.
Qed.

Lemma first_some_hit {A B : Type} (f : A -> option B) a l b :
  f a = Some b -> first_some f (a :: l) = Some b.
Proof. intros H. simpl. rewrite H. reflexivity. Qed.

Lemma first_some_app_none {A B : Type} (f : A -> option B) l1 l2 :
  (forall a, In a l1 -> f a = None) -> first_some f (l1 ++ l2) = first_some f l2.
Proof.
  induction l1 as [|a l1 IH]; intros H; simpl; [reflexivity|].
  rewrite (H a (or_introl eq_refl)). apply IH. intros x Hx. apply H. right. exact Hx.
Qed.

Lemma seq_split s n l1 a l2 :
  seq s n = l1 ++ a :: l2 -> a = s + length l1 /\ forall x, s <= x < a -> In x l1.
Proof.
  revert s n. induction l1 as [|y l1 IH]; intros s n H; destruct n as [|n]; simpl in H;
    try discriminate; injection H as E1 E2.
  - subst. simpl. split; [lia|intros; lia].
  - subst y. destruct (IH _ _ E2) as [Ha Hin]. simpl. split; [lia|].
    intros x Hx. destruct (Nat.eq_dec x s) as [->|Hne]; [left; reflexivity|].
    right. apply Hin. lia.
Qed.

(** ** The regex matcher *)

Lemma counts_bound q n k : In k (counts q n) -> k <= n /\ (q <> Star -> 1 <= k).
Proof.
  destruct q; unfold counts; intros H.
  - destruct (n =? 0) eqn:E; [destruct H|]. destruct H as [<-|[]].
    apply Nat.eqb_neq in E. split; [lia|intros; lia].
  - rewrite <- In_rev in H. apply in_seq in H. split; [lia|intros C; congruence].
  - rewrite <- In_rev in H. apply in_seq in H. split; lia.
  - apply in_seq in H. split; lia.
Qed.

Lemma run_len_le p s : run_len p s <= length s.
Proof. induction s as [|c s IH]; simpl; [lia|destruct (p c); simpl; lia]. Qed.

Lemma run_len_firstn p s k : k <= run_len p s -> forall x, In x (firstn k s) -> p x = true.
Proof.
  revert k. induction s as [|c s IH]; intros k Hk x Hx; destruct k as [|k]; simpl in *;
    try contradiction.
  destruct (p c) eqn:Hc; [|lia]. destruct Hx as [<-|Hx]; [exact Hc|].
  apply (IH k); [lia|exact Hx].
Qed.

Lemma run_len_all p s : (forall x, In x s -> p x = true) -> run_len p s = length s.
Proof.
  induction s as [|c s IH]; simpl; intros H; [reflexivity|].
  rewrite (H c (or_introl eq_refl)), IH; [reflexivity|]. intros x Hx; apply H; right; exact Hx.
Qed.

Lemma run_len_app p x y :
  (forall c, In c x -> p c = true) -> run_len p (x ++ y) = length x + run_len p y.
Proof.
  induction x as [|c x IH]; simpl; intros H; [reflexivity|].
  rewrite (H c (or_introl eq_refl)), IH; [reflexivity|]. intros d Hd; apply H; right; exact Hd.
Qed.

Lemma run_len_head p s : 1 <= run_len p s -> exists c s', s = c :: s' /\ p c = true.
Proof.
  destruct s as [|c s]; simpl; [lia|]. destruct (p c) eqn:Hc; [|lia]. eauto.
Qed.

Lemma in_skipn_in {A : Type} (x : A) k s : In x (skipn k s) -> In x s.
Proof. intros H. rewrite <- (firstn_skipn k s). apply in_or_app. right. exact H. Qed.

Lemma in_firstn_in {A : Type} (x : A) k s : In x (firstn k s) -> In x s.
Proof. intros H. rewrite <- (firstn_skipn k s). apply in_or_app. left. exact H. Qed.

Lemma match_atoms_cons c q b ps s :
  match_atoms (Atom c q b :: ps) s =
  first_some (fun k => match match_atoms ps (skipn k s) with
                       | Some caps => Some (if b then firstn k s :: caps else caps)
                       | None => None
                       end)
             (counts q (run_len c s)).
Proof. reflexivity. Qed.

Lemma match_atoms_nocap c q ps s caps :
  match_atoms (Atom c q false :: ps) s = Some caps ->
  exists k, k <= run_len c s /\ match_atoms ps (skipn k s) = Some caps.
Proof.
  rewrite match_atoms_cons. intros H. destruct (first_some_in _ _ _ H) as (k & Hk & Hf).
  destruct (match_atoms ps (skipn k s)) eqn:E; [|discriminate]. injection Hf as <-.
  exists k. split; [apply (counts_bound q), Hk|exact E].
Qed.

Lemma match_atoms_needs_char c q b ps s caps :
  match_atoms ps s = Some caps -> In (Atom c q b) ps -> q <> Star ->
  exists x, In x s /\ c x = true.
Proof.
  revert s caps. induction ps as [|[c' q' b'] ps IH]; intros s caps H Hin Hq;
    [destruct Hin|].
  rewrite match_atoms_cons in H. destruct (first_some_in _ _ _ H) as (k & Hk & Hf).
  destruct (match_atoms ps (skipn k s)) as [caps'|] eqn:E; [|discriminate].
  destruct Hin as [Heq|Hin].
  - injection Heq as -> -> ->. destruct (counts_bound _ _ _ Hk) as [H1 H2].
    specialize (H2 Hq). destruct (run_len_head c s) as (x & s' & -> & Hx); [lia|].
    exists x. split; [left; reflexivity|exact Hx].
  - destruct (IH _ _ E Hin Hq) as (x & Hx & Hcx). exists x.
    split; [apply in_skipn_in with k; exact Hx|exact Hcx].
Qed.

Lemma match_plus_cap c u :
  match_atoms [Atom c Plus true] u =
  match run_len c u with 0 => None | L => Some [firstn L u] end.
Proof.
  rewrite match_atoms_cons. simpl match_atoms.
  destruct (run_len c u) as [|L]; [reflexivity|].
  unfold counts. rewrite seq_S, rev_app_distr. reflexivity.
Qed.

(** ** [strip] *)

Lemma lstrip_spaces w y :
  (forall c, In c w -> is_space c = true) -> lstrip (w ++ y) = lstrip y.
Proof.
  induction w as [|c w IH]; simpl; intros H; [reflexivity|].
  rewrite (H c (or_introl eq_refl)). apply IH. intros d Hd; apply H; right; exact Hd.
Qed.

Lemma lstrip_suffix x :
  exists p, x = p ++ lstrip x /\ (forall c, In c p -> is_space c = true).
Proof.
  induction x as [|c x IH]; simpl.
  - exists []. split; [reflexivity|intros d []].
  - destruct (is_space c) eqn:Hc.
    + destruct IH as (p & Hp & Hs). exists (c :: p). split; [simpl; congruence|].
      intros d [<-|Hd]; [exact Hc|apply Hs, Hd].
    + exists []. split; [reflexivity|intros d []].
Qed.

Lemma lstrip_head x : lstrip x = [] \/ exists c z, lstrip x = c :: z /\ is_space c = false.
Proof.
  induction x as [|c x IH]; simpl; [left; reflexivity|].
  destruct (is_space c) eqn:Hc; [exact IH|right; eauto].
Qed.

Lemma strip_spaces w y :
  (forall c, In c w -> is_space c = true) -> strip (w ++ y) = strip y.
Proof. intros H. unfold strip. rewrite lstrip_spaces by exact H. reflexivity. Qed.

Lemma strip_lstrip x : strip (lstrip x) = strip x.
Proof.
  destruct (lstrip_suffix x) as (p & Hp & Hs).
  rewrite Hp at 2. rewrite strip_spaces by exact Hs. reflexivity.
Qed.

Lemma strip_infix x : exists p s, x = p ++ strip x ++ s.
Proof.
  destruct (lstrip_suffix x) as (p & Hp & _).
  destruct (lstrip_suffix (rev (lstrip x))) as (r & Hr & _).
  exists p, (rev r). unfold strip, rstrip.
  rewrite Hp at 1. f_equal.
  rewrite <- (rev_involutive (lstrip x)) at 1. rewrite Hr at 1.
  rewrite rev_app_distr. reflexivity.
Qed.

Lemma strip_sub x c : In c (strip x) -> In c x.
Proof.
  intros H. destruct (strip_infix x) as (p & s & Hx). rewrite Hx.
  apply in_or_app. right. apply in_or_app. left. exact H.
Qed.

Lemma strip_tl x c : In c (tl (strip x)) -> In c (tl x).
Proof.
  intros H. destruct (strip_infix x) as (p & s & Hx).
  destruct (strip x) as [|y ys] eqn:Es; [destruct H|]. simpl in H.
  rewrite Hx. destruct p as [|z p]; simpl.
  - apply in_or_app. left. exact H.
  - apply in_or_app. right. right. apply in_or_app. left. exact H.
Qed.

Lemma strip_nonnil_lstrip x : strip x <> [] -> lstrip x <> [].
Proof. unfold strip, rstrip. intros H E. rewrite E in H. apply H. reflexivity. Qed.

(** ** [split_on] and [join] *)

Lemma split_on_nonnil c s : split_on c s <> [].
Proof.
  destruct s as [|d s]; simpl; [discriminate|].
  destruct (Ascii.eqb d c); [discriminate|]. destruct (split_on c s); discriminate.
Qed.

Lemma split_on_no_sep c s : ~ In c s -> split_on c s = [s].
Proof.
  induction s as [|d s IH]; simpl; intros H; [reflexivity|].
  destruct (Ascii.eqb d c) eqn:E.
  - apply Ascii.eqb_eq in E. subst. exfalso. apply H. left. reflexivity.
  - rewrite IH; [reflexivity|]. intros Hc. apply H. right. exact Hc.
Qed.

Lemma split_on_app c x z : ~ In c x -> split_on c (x ++ c :: z) = x :: split_on c z.
Proof.
  induction x as [|d x IH]; simpl; intros H.
  - rewrite (proj2 (Ascii.eqb_eq c c) eq_refl). reflexivity.
  - destruct (Ascii.eqb d c) eqn:E.
    + apply Ascii.eqb_eq in E. subst. exfalso. apply H. left. reflexivity.
    + rewrite IH; [reflexivity|]. intros Hc. apply H. right. exact Hc.
Qed.

Lemma split_on_parts c s p x : In p (split_on c s) -> In x p -> In x s /\ x <> c.
Proof.
  revert p. induction s as [|d s IH]; simpl; intros p Hp Hx.
  - destruct Hp as [<-|[]]. destruct Hx.
  - destruct (Ascii.eqb d c) eqn:E.
    + destruct Hp as [<-|Hp]; [destruct Hx|].
      destruct (IH p Hp Hx) as [H1 H2]. split; [right; exact H1|exact H2].
    + destruct (split_on c s) as [|p0 ps] eqn:Es; [destruct (split_on_nonnil c s Es)|].
      destruct Hp as [<-|Hp].
      * destruct Hx as [<-|Hx].
        -- split; [left; reflexivity|]. intros ->.
           rewrite (proj2 (Ascii.eqb_eq c c) eq_refl) in E. discriminate.
        -- destruct (IH p0 (or_introl eq_refl) Hx) as [H1 H2]. split; [right; exact H1|exact H2].
      * destruct (IH p (or_intror Hp) Hx) as [H1 H2]. split; [right; exact H1|exact H2].
Qed.

Lemma split_on_two c s : In c s -> exists p1 p2 rest, split_on c s = p1 :: p2 :: rest.
Proof.
  induction s as [|d s IH]; simpl; intros H; [destruct H|].
  destruct (Ascii.eqb d c) eqn:E.
  - destruct (split_on c s) as [|p ps] eqn:Es; [destruct (split_on_nonnil c s Es)|]. eauto.
  - destruct H as [->|H].
    + rewrite (proj2 (Ascii.eqb_eq c c) eq_refl) in E. discriminate.
    + destruct (IH H) as (p1 & p2 & rest & ->). eauto.
Qed.

Lemma split_join c l :
  l <> [] -> (forall x, In x l -> ~ In c x) -> split_on c (join [c] l) = l.
Proof.
  induction l as [|x l IH]; intros Hne H; [congruence|].
  destruct l as [|y l].
  - simpl. apply split_on_no_sep, H. left. reflexivity.
  - change (join [c] (x :: y :: l)) with (x ++ c :: join [c] (y :: l)).
    rewrite split_on_app by (apply H; left; reflexivity).
    rewrite IH; [reflexivity|discriminate|]. intros z Hz. apply H. right. exact Hz.
Qed.

(** ** The pattern on one line *)

Lemma plus_any_rest t k :
  (forall x, In x t -> is_any x = true) ->
  match_atoms [Atom is_any Plus true] (skipn k t) =
  match length (skipn k t) with 0 => None | _ => Some [skipn k t] end.
Proof.
  intros Hany. rewrite match_plus_cap, run_len_all.
  - destruct (length (skipn k t)) eqn:E; [reflexivity|].
    rewrite <- E, firstn_all. reflexivity.
  - intros x Hx. apply Hany, in_skipn_in with k, Hx.
Qed.

(** [\s*(.+)] on a non-empty line remainder captures it up to leading blanks. *)
Lemma tail_match t :
  t <> [] -> (forall x, In x t -> is_any x = true) ->
  exists t', match_atoms [Atom is_space Star false; Atom is_any Plus true] t = Some [t']
             /\ strip t' = strip t.
Proof.
  intros Hne Hany. rewrite match_atoms_cons.
  match goal with
  | |- exists t', first_some ?f ?l = _ /\ _ => destruct (first_some_exists f l 0 [t]) as [b Hb]
  end; [| |rewrite Hb].
  - unfold counts. rewrite <- In_rev. apply in_seq. lia.
  - cbv beta iota. rewrite (plus_any_rest t 0 Hany). simpl skipn.
    destruct t as [|c t]; [congruence|]. reflexivity.
  - destruct (first_some_in _ _ _ Hb) as (k & Hk & Hfk). cbv beta iota in Hfk.
    rewrite (plus_any_rest t k Hany) in Hfk.
    destruct (length (skipn k t)); [discriminate|]. injection Hfk as <-.
    exists (skipn k t). split; [reflexivity|].
    rewrite <- (firstn_skipn k t) at 2. rewrite strip_spaces; [reflexivity|].
    apply run_len_firstn. apply (counts_bound Star), Hk.
Qed.

Lemma skipn_in_prefix (q' t : str) j :
  j < length q' -> exists c z, skipn j (q' ++ t) = c :: z ++ t /\ In c q'.
Proof.
  intros Hj. rewrite skipn_app.
  replace (j - length q') with 0 by lia. simpl skipn at 2.
  destruct (skipn j q') as [|c z] eqn:E.
  - apply (f_equal (@length ascii)) in E. rewrite length_skipn in E. simpl in E. lia.
  - exists c, z. split; [reflexivity|]. apply in_skipn_in with j. rewrite E. left. reflexivity.
Qed.

Lemma qm_char_fail c z ps :
  c <> qm -> match_atoms (Atom (is_char qm) One false :: ps) (c :: z) = None.
Proof.
  intros Hc. rewrite match_atoms_cons. simpl run_len.
  unfold is_char. destruct (Ascii.eqb c qm) eqn:E; [apply Ascii.eqb_eq in E; congruence|].
  reflexivity.
Qed.

(** [(.+?)\?\s*(.+)] stops at the first ['?'] followed by at least one character. *)
Lemma lazy_match q' t :
  q' <> [] -> ~ In qm q' -> t <> [] ->
  (forall x, In x (q' ++ qm :: t) -> is_any x = true) ->
  exists t', match_atoms [Atom is_any LazyPlus true; Atom (is_char qm) One false;
                          Atom is_space Star false; Atom is_any Plus true] (q' ++ qm :: t)
             = Some [q'; t'] /\ strip t' = strip t.
Proof.
  intros Hq Hnq Ht Hany.
  assert (Hm : 1 <= length q') by (destruct q'; [congruence|simpl; lia]).
  assert (Hta : forall x, In x t -> is_any x = true)
    by (intros x Hx; apply Hany, in_or_app; right; right; exact Hx).
  destruct (tail_match t Ht Hta) as (t' & Htm & Hst).
  exists t'. split; [|exact Hst].
  rewrite match_atoms_cons, run_len_all by exact Hany. unfold counts.
  replace (length (q' ++ qm :: t)) with ((length q' - 1) + S (S (length t)))
    by (rewrite length_app; cbn [Datatypes.length]; lia).
  rewrite seq_app. replace (1 + (length q' - 1)) with (length q') by lia.
  rewrite first_some_app_none.
  - change (seq (length q') (S (S (length t))))
      with (length q' :: seq (S (length q')) (S (length t))).
    apply first_some_hit. cbv beta.
    rewrite skipn_app, skipn_all, Nat.sub_diag. simpl app.
    rewrite match_atoms_cons. simpl run_len. unfold is_char.
    cbn [counts Nat.eqb].
    rewrite (first_some_hit _ 1 [] [t']) by (cbv beta; simpl skipn; rewrite Htm; reflexivity).
    rewrite firstn_app, firstn_all, Nat.sub_diag, app_nil_r. reflexivity.
  - intros j Hj. apply in_seq in Hj.
    destruct (skipn_in_prefix q' (qm :: t) j) as (c & z & Hs & Hc); [lia|].
    rewrite Hs. rewrite qm_char_fail; [reflexivity|].
    intros ->. exact (Hnq Hc).
Qed.

Lemma qm_not_nl : qm <> nl.
Proof. discriminate. Qed.

Lemma sp_not_nl : sp <> nl.
Proof. discriminate. Qed.

Lemma counts_qm (u : str) : counts One (run_len (is_char qm) (qm :: u)) = [1].
Proof. reflexivity. Qed.

Lemma nocap_first c q ps s k l caps :
  counts q (run_len c s) = k :: l -> match_atoms ps (skipn k s) = Some caps ->
  match_atoms (Atom c q false :: ps) s = Some caps.
Proof.
  intros Hc Hm. rewrite match_atoms_cons, Hc. apply first_some_hit. cbv beta.
  rewrite Hm. reflexivity.
Qed.

Lemma counts_plus_head n : 1 <= n -> exists l, counts Plus n = n :: l.
Proof.
  destruct n as [|n]; [lia|]. intros _. unfold counts.
  rewrite seq_S, rev_app_distr. eexists. reflexivity.
Qed.

Lemma counts_star_head n : exists l, counts Star n = n :: l.
Proof. unfold counts. rewrite seq_S, rev_app_distr. eexists. reflexivity. Qed.

Lemma is_any_no_nl s : ~ In nl s -> forall x, In x s -> is_any x = true.
Proof.
  intros H x Hx. unfold is_any. destruct (Ascii.eqb x nl) eqn:E; [|reflexivity].
  apply Ascii.eqb_eq in E. subst x. contradiction.
Qed.

(** The pattern on a well-formed numbered line. *)
Lemma line_match i q a :
  well_formed_entry (i, q, a) ->
  exists c1 c2, re_match_groups (numbered_line (i, q, a)) = Some (c1, c2) /\
                strip c1 = strip q /\ strip c2 = strip a.
Proof.
  intros (Hi & Hd & Hq & Hqn & Hs & Ha). unfold numbered_line.
  destruct (lstrip_suffix q) as (w & Hw & Hws).
  destruct (lstrip_head q) as [E|(c & z & Ez & Hc)];
    [exfalso; exact (strip_nonnil_lstrip q Hs E)|].
  assert (Hsub : forall x, In x (lstrip q) -> In x q)
    by (intros x Hx; rewrite Hw; apply in_or_app; right; exact Hx).
  assert (Hany : forall x, In x (lstrip q ++ qm :: sp :: a) -> is_any x = true).
  { apply is_any_no_nl. intros Hx. apply in_app_or in Hx.
    destruct Hx as [Hx|[Hx|[Hx|Hx]]].
    - exact (Hqn (Hsub _ Hx)).
    - exact (qm_not_nl Hx).
    - exact (sp_not_nl Hx).
    - exact (Ha Hx). }
  destruct (lazy_match (lstrip q) (sp :: a)) as (t' & Hm & Hst).
  - rewrite Ez. discriminate.
  - intros Hx. exact (Hq (Hsub _ Hx)).
  - discriminate.
  - exact Hany.
  - exists (lstrip q), t'. split; [|split].
    + cut (match_atoms faq_line_re (i ++ dot :: sp :: q ++ qm :: sp :: a)
           = Some [lstrip q; t']).
      { intros Hfull. unfold re_match_groups. rewrite Hfull. reflexivity. }
      unfold faq_line_re.
      destruct (counts_plus_head (length i)) as [l1 Hl1];
        [destruct i; [congruence|simpl; lia]|].
      apply nocap_first with (k := length i) (l := l1).
      { rewrite run_len_app by exact Hd. simpl run_len at 1.
        rewrite Nat.add_0_r. exact Hl1. }
      rewrite skipn_app, skipn_all, Nat.sub_diag. simpl skipn. simpl app.
      apply nocap_first with (k := 1) (l := []); [reflexivity|]. simpl skipn.
      destruct (counts_star_head (S (length w))) as [l3 Hl3].
      apply nocap_first with (k := S (length w)) (l := l3).
      { rewrite Hw at 1. rewrite <- app_assoc. change (sp :: w ++ lstrip q ++ qm :: sp :: a)
          with ((sp :: w) ++ lstrip q ++ qm :: sp :: a).
        rewrite run_len_app.
        - rewrite Ez. simpl run_len at 1. rewrite Hc. simpl length.
          rewrite Nat.add_0_r. exact Hl3.
        - intros x [<-|Hx]; [reflexivity|apply Hws, Hx]. }
      rewrite Hw at 1. simpl skipn. rewrite <- app_assoc, skipn_app, skipn_all, Nat.sub_diag.
      exact Hm.
    + apply strip_lstrip.
    + rewrite Hst. change (sp :: a) with ([sp] ++ a). apply strip_spaces.
      intros x [<-|[]]. reflexivity.
Qed.

Lemma numbered_line_no_nl e : well_formed_entry e -> ~ In nl (numbered_line e).
Proof.
  destruct e as [[i q] a]. intros (Hi & Hd & Hq & Hqn & Hs & Ha) H. simpl in H.
  apply in_app_or in H. destruct H as [H|[H|[H|H]]].
  - specialize (Hd nl H). discriminate.
  - discriminate.
  - discriminate.
  - apply in_app_or in H. destruct H as [H|[H|[H|H]]];
      [exact (Hqn H)|exact (qm_not_nl H)|exact (sp_not_nl H)|exact (Ha H)].
Qed.

Lemma strict_lines_map entries :
  Forall well_formed_entry entries ->
  strict_pairs_lines (map numbered_line entries) = map expected_pair entries.
Proof.
  induction entries as [|[[i q] a] es IH]; intros H; [reflexivity|].
  inversion H as [|e es' Hwf Hes]; subst.
  destruct (line_match i q a Hwf) as (c1 & c2 & Hm & H1 & H2).
  cbn [map strict_pairs_lines]. rewrite Hm, H1, H2, IH by exact Hes. reflexivity.
Qed.

Lemma re_match_has_qm line c1 c2 : re_match_groups line = Some (c1, c2) -> In qm line.
Proof.
  unfold re_match_groups. destruct (match_atoms faq_line_re line) as [caps|] eqn:E;
    [|discriminate]. intros _.
  destruct (match_atoms_needs_char (is_char qm) One false _ _ _ E) as (x & Hx & Hc).
  - unfold faq_line_re. right; right; right; right; left. reflexivity.
  - discriminate.
  - unfold is_char in Hc. apply Ascii.eqb_eq in Hc. subst. exact Hx.
Qed.

Lemma strict_lines_nil lines :
  (forall l, In l lines -> ~ In qm l) -> strict_pairs_lines lines = [].
Proof.
  induction lines as [|l lines IH]; simpl; intros H; [reflexivity|].
  destruct (re_match_groups l) as [[c1 c2]|] eqn:E.
  - exfalso. apply (H l (or_introl eq_refl)). eapply re_match_has_qm. exact E.
  - apply IH. intros l' Hl'. apply H. right. exact Hl'.
Qed.

Lemma parse_nil_iff faqs : parse_faqs faqs = [] <-> ~ In qm faqs.
Proof.
  split.
  - intros H Hin. unfold parse_faqs in H.
    destruct (strict_pairs faqs) eqn:E; [|discriminate].
    unfold fallback_pairs in H. destruct (split_on_two qm faqs Hin) as (p1 & p2 & rest & Hs).
    rewrite Hs in H. discriminate.
  - intros Hn. unfold parse_faqs, strict_pairs. rewrite strict_lines_nil.
    + unfold fallback_pairs. rewrite split_on_no_sep by exact Hn. reflexivity.
    + intros l Hl Hq. apply Hn. exact (proj1 (split_on_parts nl faqs l qm Hl Hq)).
Qed.

Lemma skipn_nth (r : str) m x : nth_error r m = Some x -> skipn m r = x :: skipn (S m) r.
Proof.
  revert m. induction r as [|c r IH]; intros m H; destruct m as [|m]; simpl in *;
    try discriminate.
  - injection H as ->. reflexivity.
  - apply IH, H.
Qed.

(** Inside the lazy group, a ['?'] can only be the first character. *)
Lemma lazy_no_qm r caps :
  (forall x, In x r -> is_any x = true) ->
  match_atoms [Atom is_any LazyPlus true; Atom (is_char qm) One false;
               Atom is_space Star false; Atom is_any Plus true] r = Some caps ->
  exists c1 rest, caps = c1 :: rest /\ ~ In qm (tl c1).
Proof.
  intros Hany H. rewrite match_atoms_cons, run_len_all in H by exact Hany.
  unfold counts in H.
  destruct (first_some_split _ _ _ H) as (l1 & k & l2 & Hseq & Hnone & Hk).
  destruct (seq_split _ _ _ _ _ Hseq) as [Hka Hin1].
  cbv beta in Hk.
  destruct (match_atoms [Atom (is_char qm) One false; Atom is_space Star false;
                         Atom is_any Plus true] (skipn k r)) as [caps'|] eqn:Em;
    [|discriminate].
  injection Hk as <-. eexists; eexists. split; [reflexivity|]. intros Hq.
  destruct (match_atoms_needs_char (is_char qm) One false _ _ _ Em) as (y & Hy & _);
    [left; reflexivity|discriminate|].
  apply In_nth_error in Hq. destruct Hq as (n & Hn).
  assert (Hn' : nth_error (firstn k r) (S n) = Some qm)
    by (destruct (firstn k r); [destruct n; discriminate|exact Hn]).
  rewrite nth_error_firstn in Hn'. destruct (S n <? k) eqn:Hlt; [|discriminate].
  apply Nat.ltb_lt in Hlt.
  assert (Hu : skipn (S (S n)) r <> []).
  { intros E. apply (f_equal (@length ascii)) in E. rewrite length_skipn in E.
    assert (Hk' : 0 < length (skipn k r)) by (destruct (skipn k r); [destruct Hy|simpl; lia]).
    rewrite length_skipn in Hk'. simpl in E. lia. }
  assert (Hua : forall x, In x (skipn (S (S n)) r) -> is_any x = true)
    by (intros x Hx; apply Hany, in_skipn_in with (S (S n)), Hx).
  destruct (tail_match _ Hu Hua) as (t' & Ht' & _).
  specialize (Hnone (S n) (Hin1 (S n) ltac:(lia))). cbv beta in Hnone.
  rewrite (skipn_nth r (S n) qm Hn') in Hnone.
  rewrite match_atoms_cons, counts_qm in Hnone.
  rewrite (first_some_hit _ 1 [] [t']) in Hnone.
  - discriminate.
  - cbv beta. change (skipn 1 (qm :: skipn (S (S n)) r)) with (skipn (S (S n)) r).
    rewrite Ht'. reflexivity.
Qed.

Lemma re_match_question line c1 c2 :
  ~ In nl line -> re_match_groups line = Some (c1, c2) -> ~ In qm (tl c1).
Proof.
  intros Hl. unfold re_match_groups.
  destruct (match_atoms faq_line_re line) as [caps|] eqn:E; [|discriminate].
  intros Hc. unfold faq_line_re in E.
  apply match_atoms_nocap in E. destruct E as (k1 & _ & E).
  apply match_atoms_nocap in E. destruct E as (k2 & _ & E).
  apply match_atoms_nocap in E. destruct E as (k3 & _ & E).
  apply lazy_no_qm in E.
  - destruct E as (c1' & rest & -> & Hq).
    destruct rest as [|c2' [|]]; try discriminate. injection Hc as <- <-. exact Hq.
  - intros x Hx. apply is_any_no_nl with line; [exact Hl|].
    apply in_skipn_in in Hx. apply in_skipn_in in Hx. apply in_skipn_in in Hx. exact Hx.
Qed.

Lemma strict_lines_in lines q a :
  In (q, a) (strict_pairs_lines lines) ->
  exists line c1 c2, In line lines /\ re_match_groups line = Some (c1, c2) /\
                     q = strip c1 ++ [qm].
Proof.
  induction lines as [|l lines IH]; simpl; [intros []|].
  destruct (re_match_groups l) as [[c1 c2]|] eqn:E.
  - intros [H|H].
    + injection H as <- <-. exists l, c1, c2. auto.
    + destruct (IH H) as (line & d1 & d2 & H1 & H2 & H3). exists line, d1, d2. auto.
  - intros H. destruct (IH H) as (line & d1 & d2 & H1 & H2 & H3). exists line, d1, d2. auto.
Qed.

Lemma pair_up_in parts q a :
  In (q, a) (pair_up parts) -> exists p, In p parts /\ q = strip p ++ [qm].
Proof.
  enough (G : forall parts,
    (In (q, a) (pair_up parts) -> exists p, In p parts /\ q = strip p ++ [qm]) /\
    (forall p0, In (q, a) (pair_up (p0 :: parts)) ->
                exists p, In p (p0 :: parts) /\ q = strip p ++ [qm]))
    by exact (proj1 (G parts)).
  clear parts. intros parts. induction parts as [|x parts [IH1 IH2]].
  - split; [intros []|intros p0 []].
  - split; [exact (IH2 x)|].
    intros p0 H. simpl in H. destruct H as [H|H].
    + injection H as <- <-. exists p0. split; [left; reflexivity|reflexivity].
    + destruct (IH1 H) as (p & Hp & Hq). exists p. split; [right; right; exact Hp|exact Hq].
Qed.

Lemma not_in_existsb c s : existsb (is_char c) s = false -> ~ In c s.
Proof.
  intros H Hin. assert (E : existsb (is_char c) s = true).
  { apply existsb_exists. exists c. split; [exact Hin|]. apply Ascii.eqb_eq. reflexivity. }
  congruence.
Qed.

Lemma well_formed_entries_check l :
  forallb well_formed_entryb l = true -> Forall well_formed_entry l.
Proof.
  intros H. apply Forall_forall. intros [[i q] a] Hin.
  rewrite forallb_forall in H. specialize (H _ Hin). simpl in H.
  repeat rewrite andb_true_iff in H.
  destruct H as [[[[[H1 H2] H3] H4] H5] H6]. apply negb_true_iff in H1, H3, H4, H5, H6.
  rewrite forallb_forall in H2.
  split; [destruct i; [discriminate|congruence]|].
  split; [exact H2|]. split; [apply not_in_existsb, H3|]. split; [apply not_in_existsb, H4|].
  split; [destruct (strip q); [discriminate|congruence]|]. apply not_in_existsb, H6.
Qed.

(** * Claims on the FAQ parser *)

(** C1: for a text made of lines [<index>. <question text>? <answer text>]
    (one or more lines, a non-blank question text without ['?']), the
    parser yields one pair per line in line order, the question being the
    trimmed question text followed by ['?'] and the answer the trimmed text
    after the ['?']. *)
Theorem parse_numbered_lines entries :
  entries <> [] -> Forall well_formed_entry entries ->
  parse_faqs (join [nl] (map numbered_line entries)) = map expected_pair entries.
Proof.
  intros Hne Hwf. unfold parse_faqs, strict_pairs. rewrite split_join.
  - rewrite strict_lines_map by exact Hwf.
    destruct entries as [|e es]; [congruence|]. reflexivity.
  - destruct entries; [congruence|discriminate].
  - intros x Hx. apply in_map_iff in Hx. destruct Hx as (e & <- & He).
    apply numbered_line_no_nl. rewrite Forall_forall in Hwf. apply Hwf, He.
Qed.

Lemma parse_numbered_lines_witness :
  let entries := [(s2l "1", s2l "What is it", s2l "A thing. Why? Because.");
                  (s2l "7", s2l " Is it safe ", s2l "Yes")] in
  entries <> [] /\ Forall well_formed_entry entries /\
  parse_faqs (join [nl] (map numbered_line entries)) = map expected_pair entries.
Proof.
  intros entries.
  assert (H1 : entries <> []) by discriminate.
  assert (H2 : Forall well_formed_entry entries).
  { apply well_formed_entries_check. vm_compute. reflexivity. }
  split; [exact H1|split; [exact H2|]].
  apply (parse_numbered_lines entries H1 H2).
Defined.

(** C2 (as stated): the fallback stage splits
    ["What is X?Answer A.What is Y?Answer B."] into the two pairs
    [{"What is X?", "Answer A."}] and [{"What is Y?", "Answer B."}]. Refuted. *)
Lemma fallback_sample_not_two_pairs :
  strict_pairs fallback_sample = [] /\
  parse_faqs fallback_sample <>
  [(s2l "What is X?", s2l "Answer A."); (s2l "What is Y?", s2l "Answer B.")].
Proof. split; vm_compute; [reflexivity|discriminate]. Qed.

(** C2 (amended): on ["What is X?Answer A.What is Y?Answer B."] the numbered
    stage finds nothing and the fallback pairs the three ['?']-separated
    fragments as (fragment 0 + ['?'], fragment 1), dropping the unpaired last
    fragment: the single pair [{"What is X?", "Answer A.What is Y"}]. *)
Theorem fallback_sample_pairs :
  strict_pairs fallback_sample = [] /\
  split_on qm fallback_sample = map s2l ["What is X"; "Answer A.What is Y"; "Answer B."]%string /\
  parse_faqs fallback_sample = [(s2l "What is X?", s2l "Answer A.What is Y")].
Proof. vm_compute. split; [reflexivity|split; reflexivity]. Qed.

(** C3: the parser and the document builder are total: for every input the
    document is built with a [mainEntity] array, and that array is empty
    exactly when the input has no ['?'] (no line matches the numbered
    pattern and the fallback finds no pair); non-matching lines contribute
    nothing. *)
Theorem faqs_to_jsonld_total faqs product_keywords :
  exists entries,
    faqs_to_jsonld faqs product_keywords =
      JObject [ (s2l "@context", JString (s2l "https://schema.org"));
                (s2l "@type", JString (s2l "FAQPage"));
                (s2l "mainEntity", JArray entries) ] /\
    (entries = [] <-> ~ In qm faqs) /\
    (strict_pairs faqs <> [] -> parse_faqs faqs = strict_pairs_lines (split_on nl faqs)).
Proof.
  exists (map faq_entry (parse_faqs faqs)). split; [reflexivity|split].
  - rewrite <- parse_nil_iff.
    split; intros H; [destruct (parse_faqs faqs); [reflexivity|discriminate]|rewrite H; reflexivity].
  - intros H. unfold parse_faqs. destruct (strict_pairs faqs) eqn:E; [congruence|].
    exact (eq_sym E).
Qed.

(** C9: the end-to-end output of three numbered lines gives three pairs and
    a FAQPage document with three well-shaped [mainEntity] items whose names
    end in ['?']. *)
Theorem earbuds_document :
  parse_faqs earbuds_output =
    [(s2l "Are they waterproof?", s2l "Yes, IPX5 rated.");
     (s2l "Battery life?", s2l "Up to 8 hours.");
     (s2l "Warranty?", s2l "One year.")] /\
  faqs_to_jsonld earbuds_output (s2l "wireless earbuds") =
    JObject [ (s2l "@context", JString (s2l "https://schema.org"));
              (s2l "@type", JString (s2l "FAQPage"));
              (s2l "mainEntity",
                JArray [ schema_question "Are they waterproof?" "Yes, IPX5 rated.";
                         schema_question "Battery life?" "Up to 8 hours.";
                         schema_question "Warranty?" "One year." ]) ] /\
  Forall (fun qa => exists body, fst qa = body ++ [qm]) (parse_faqs earbuds_output).
Proof.
  split; [vm_compute; reflexivity|split; [vm_compute; reflexivity|]].
  vm_compute. repeat constructor.
  - exists (s2l "Are they waterproof"). reflexivity.
  - exists (s2l "Battery life"). reflexivity.
  - exists (s2l "Warranty"). reflexivity.
Qed.

(** C10 (as stated): every question holds exactly one ['?'], its last
    character. Refuted by the line ["1. ?? A"]. *)
Lemma question_two_marks :
  parse_faqs (s2l "1. ?? A") = [(s2l "??", s2l "A")] /\
  count_occ ascii_dec (s2l "??") qm = 2.
Proof. vm_compute. split; reflexivity. Qed.

(** C10 (amended): every question is a body followed by ['?'], and the body
    holds no ['?'] except possibly as its first character (the lazy group of
    the numbered pattern takes at least one character); a question of the
    fallback stage holds no other ['?'] at all. *)
Theorem parse_question_marks faqs q a :
  (In (q, a) (parse_faqs faqs) -> exists body, q = body ++ [qm] /\ ~ In qm (tl body)) /\
  (In (q, a) (fallback_pairs faqs) -> exists body, q = body ++ [qm] /\ ~ In qm body).
Proof.
  assert (Hfb : In (q, a) (fallback_pairs faqs) ->
                exists body, q = body ++ [qm] /\ ~ In qm body).
  { intros H. destruct (pair_up_in _ _ _ H) as (p & Hp & ->).
    exists (strip p). split; [reflexivity|]. intros Hq.
    apply strip_sub in Hq. destruct (split_on_parts qm faqs p qm Hp Hq) as [_ C].
    exact (C eq_refl). }
  split; [|exact Hfb]. intros H. unfold parse_faqs in H.
  destruct (strict_pairs faqs) as [|x xs] eqn:E.
  - destruct (Hfb H) as (body & Hb & Hn). exists body. split; [exact Hb|].
    intros Ht. apply Hn. destruct body; [destruct Ht|right; exact Ht].
  - rewrite <- E in H. unfold strict_pairs in H.
    destruct (strict_lines_in _ _ _ H) as (line & c1 & c2 & Hl & Hm & ->).
    exists (strip c1). split; [reflexivity|]. intros Ht.
    apply strip_tl in Ht. revert Ht. apply (re_match_question line c1 c2); [|exact Hm].
    intros Hn. exact (proj2 (split_on_parts nl faqs line nl Hl Hn) eq_refl).
Qed.

Lemma parse_question_marks_witness :
  In (s2l "??", s2l "A") (parse_faqs (s2l "1. ?? A")) /\
  exists body, s2l "??" = body ++ [qm] /\ ~ In qm (tl body).
Proof.
  assert (H : In (s2l "??", s2l "A") (parse_faqs (s2l "1. ?? A")))
    by (vm_compute; left; reflexivity).
  split; [exact H|]. exact (proj1 (parse_question_marks (s2l "1. ?? A") _ _) H).
Defined.

(** * Claims on the uniqueness checker *)

Lemma is_prefix_spec x y : is_prefix x y = true <-> exists post, y = x ++ post.
Proof.
  revert y. induction x as [|a x IH]; intros y; destruct y as [|b y]; simpl.
  - split; [intros _; exists []; reflexivity|reflexivity].
  - split; [intros _; exists (b :: y); reflexivity|reflexivity].
  - split; [discriminate|intros [post H]; discriminate].
  - rewrite andb_true_iff, IH. split.
    + intros [E [post ->]]. apply Ascii.eqb_eq in E. subst. exists post. reflexivity.
    + intros [post H]. injection H as -> ->.
      split; [apply Ascii.eqb_eq; reflexivity|exists post; reflexivity].
Qed.

Lemma is_sub_spec x y : is_sub x y = true <-> exists pre post, y = pre ++ x ++ post.
Proof.
  induction y as [|b y IH]; simpl; rewrite orb_true_iff, is_prefix_spec.
  - split.
    + intros [[post H]|H]; [exists [], post; exact H|discriminate].
    + intros (pre & post & H). destruct pre as [|c pre]; [left; exists post; exact H|discriminate].
  - rewrite IH. split.
    + intros [[post H]|(pre & post & H)].
      * exists [], post. exact H.
      * exists (b :: pre), post. rewrite H. reflexivity.
    + intros (pre & post & H). destruct pre as [|c pre].
      * left. exists post. exact H.
      * right. injection H as _ H. exists pre, post. exact H.
Qed.

Lemma join_cons sep x l : l <> [] -> join sep (x :: l) = x ++ sep ++ join sep l.
Proof. destruct l; [congruence|reflexivity]. Qed.

Lemma serp_text_joined ctx : serp_text ctx = lower (organic_texts_joined ctx).
Proof.
  unfold serp_text, organic_texts_joined. f_equal.
  induction (organic_or_nil ctx) as [|it items IH]; [reflexivity|].
  destruct items as [|it' items'].
  - reflexivity.
  - rewrite map_cons, join_cons by discriminate. rewrite IH.
    change (flat_map ?f (it :: ?l)) with (f it ++ flat_map f l). cbv beta.
    simpl app. rewrite join_cons by discriminate. rewrite join_cons.
    + rewrite <- !app_assoc. reflexivity.
    + simpl. discriminate.
Qed.

(** C4: the checker returns one [(line, is_unique)] pair per line of the
    text, and [is_unique] is false exactly when the lowercased, trimmed line
    occurs in the lowercased space-joined organic titles and snippets. *)
Theorem uniqueness_contract faqs ctx :
  map fst (check_faq_uniqueness faqs ctx) = split_on nl faqs /\
  forall line is_unique, In (line, is_unique) (check_faq_uniqueness faqs ctx) ->
    (is_unique = false <->
     exists pre post, lower (organic_texts_joined ctx) = pre ++ lower (strip line) ++ post).
Proof.
  unfold check_faq_uniqueness. split.
  - rewrite map_map. simpl. apply map_id.
  - intros line u Hin. apply in_map_iff in Hin. destruct Hin as (l & E & _).
    injection E as <- <-. rewrite <- serp_text_joined, <- is_sub_spec.
    destruct (is_sub (lower (strip l)) (serp_text ctx)); simpl; split; congruence.
Qed.

(** C5 (as stated): blank lines are reported with [is_unique = true].
    Refuted: the empty string occurs in every text. *)
Lemma blank_line_not_unique :
  ~ (forall faqs ctx line is_unique,
       In (line, is_unique) (check_faq_uniqueness faqs ctx) -> strip line = [] ->
       is_unique = true).
Proof.
  intros H. specialize (H [] empty_context [] false).
  assert (E : false = true) by (apply H; [left; reflexivity|reflexivity]). discriminate.
Qed.

(** C5 (amended): the checker reports every blank line with
    [is_unique = false]; the display loop of [main] never marks a blank line
    as a potential duplicate. *)
Theorem blank_line_shown_plain faqs ctx line is_unique :
  In (line, is_unique) (check_faq_uniqueness faqs ctx) -> strip line = [] ->
  is_unique = false /\ display_flagged line is_unique = false.
Proof.
  intros Hin Hb. unfold check_faq_uniqueness in Hin. apply in_map_iff in Hin.
  destruct Hin as (l & E & _). injection E as <- <-. rewrite Hb.
  assert (Hs : is_sub (lower []) (serp_text ctx) = true) by (destruct (serp_text ctx); reflexivity).
  rewrite Hs. unfold display_flagged. rewrite Hb. split; reflexivity.
Qed.

Lemma blank_line_shown_plain_witness :
  In (s2l "  ", false) (check_faq_uniqueness (s2l "  ") keyword_sample) /\
  strip (s2l "  ") = [] /\
  false = false /\ display_flagged (s2l "  ") false = false.
Proof.
  assert (H1 : In (s2l "  ", false) (check_faq_uniqueness (s2l "  ") keyword_sample))
    by (vm_compute; left; reflexivity).
  assert (H2 : strip (s2l "  ") = []) by reflexivity.
  split; [exact H1|split; [exact H2|]].
  exact (blank_line_shown_plain _ _ _ _ H1 H2).
Defined.

(** * Claims on the keyword extractor *)

Lemma lower_char_idem c : lower_char (lower_char c) = lower_char c.
Proof. destruct c as [[] [] [] [] [] [] [] []]; reflexivity. Qed.

Lemma lower_idem s : lower (lower s) = lower s.
Proof. unfold lower. rewrite map_map. apply map_ext, lower_char_idem. Qed.

Lemma tok_in text w : In w (tok text) -> lower w = w /\ 3 < length w.
Proof.
  unfold tok. intros H. apply in_map_iff in H. destruct H as (w0 & <- & H).
  apply filter_In in H. destruct H as [_ H]. apply Nat.ltb_lt in H.
  split; [apply lower_idem|unfold lower; rewrite length_map; exact H].
Qed.

Lemma str_eqb_true x y : str_eqb x y = true <-> x = y.
Proof. unfold str_eqb. destruct (list_eq_dec ascii_dec x y); split; congruence. Qed.

Lemma set_add_in k s w : In w (set_add k s) <-> In w s \/ w = k.
Proof.
  unfold set_add. destruct (existsb (str_eqb k) s) eqn:E.
  - apply existsb_exists in E. destruct E as (x & Hx & Hk). apply str_eqb_true in Hk. subst x.
    split; [tauto|intros [H| ->]; assumption].
  - rewrite in_app_iff. simpl. split; intros [H|H]; try tauto.
    + destruct H as [<-|[]]. right. reflexivity.
    + right. left. symmetry. exact H.
Qed.

Lemma set_add_nodup k s : NoDup s -> NoDup (set_add k s).
Proof.
  unfold set_add. intros H. destruct (existsb (str_eqb k) s) eqn:E; [exact H|].
  apply NoDup_app; [exact H|constructor; [intros []|constructor]|].
  intros x Hx [Hk|[]]. subst x. assert (Ht : existsb (str_eqb k) s = true).
  { apply existsb_exists. exists k. split; [exact Hx|apply str_eqb_true; reflexivity]. }
  congruence.
Qed.

Lemma fold_set_add_in l acc w :
  In w (fold_left (fun acc k => set_add k acc) l acc) <-> In w acc \/ In w l.
Proof.
  revert acc. induction l as [|k l IH]; intros acc; simpl; [tauto|].
  rewrite IH, set_add_in. split; intros H; intuition congruence.
Qed.

Lemma fold_set_add_nodup l acc :
  NoDup acc -> NoDup (fold_left (fun acc k => set_add k acc) l acc).
Proof.
  revert acc. induction l as [|k l IH]; intros acc H; simpl; [exact H|].
  apply IH, set_add_nodup, H.
Qed.

Lemma fold_filter_map {A B C : Type} (p : A -> bool) (h : A -> B) (g : B -> C -> C) l acc :
  fold_left (fun acc w => if p w then g (h w) acc else acc) l acc =
  fold_left (fun acc k => g k acc) (map h (filter p l)) acc.
Proof.
  revert acc. induction l as [|w l IH]; intros acc; simpl; [reflexivity|].
  destruct (p w); simpl; apply IH.
Qed.

Lemma add_words_in text acc w : In w (add_words text acc) <-> In w acc \/ In w (tok text).
Proof. unfold add_words. rewrite fold_filter_map. apply fold_set_add_in. Qed.

Lemma add_words_nodup text acc : NoDup acc -> NoDup (add_words text acc).
Proof. unfold add_words. rewrite fold_filter_map. apply fold_set_add_nodup. Qed.

Lemma keyword_set_eq ctx :
  keyword_set ctx =
  fold_left related_step (related_or_nil ctx) (fold_left organic_step (organic_or_nil ctx) []).
Proof.
  unfold keyword_set, related_or_nil, organic_or_nil.
  destruct (organic ctx) as [[|it items]|]; destruct (relatedSearches ctx) as [[|r rs]|];
    reflexivity.
Qed.

Lemma organic_fold_in items acc w :
  In w (fold_left organic_step items acc) <->
  In w acc \/ In w (flat_map (fun it => tok (get_str (title it))) items)
           \/ In w (flat_map (fun it => tok (get_str (snippet it))) items).
Proof.
  revert acc. induction items as [|it items IH]; intros acc; simpl; [tauto|].
  rewrite IH. unfold organic_step. rewrite !add_words_in, !in_app_iff. tauto.
Qed.

Lemma related_fold_in rs acc w :
  In w (fold_left related_step rs acc) <->
  In w acc \/ In w (flat_map (fun s => tok (get_str (query s))) rs).
Proof.
  revert acc. induction rs as [|r rs IH]; intros acc; simpl; [tauto|].
  rewrite IH. unfold related_step. rewrite !add_words_in, !in_app_iff. tauto.
Qed.

Lemma organic_fold_nodup items acc : NoDup acc -> NoDup (fold_left organic_step items acc).
Proof.
  revert acc. induction items as [|it items IH]; intros acc H; simpl; [exact H|].
  apply IH. unfold organic_step. apply add_words_nodup, add_words_nodup, H.
Qed.

Lemma related_fold_nodup rs acc : NoDup acc -> NoDup (fold_left related_step rs acc).
Proof.
  revert acc. induction rs as [|r rs IH]; intros acc H; simpl; [exact H|].
  apply IH. apply add_words_nodup, H.
Qed.

Lemma keyword_set_nodup ctx : NoDup (keyword_set ctx).
Proof.
  rewrite keyword_set_eq. apply related_fold_nodup, organic_fold_nodup. constructor.
Qed.

Lemma qualifying_tokens_flat texts : qualifying_tokens texts = flat_map tok texts.
Proof.
  unfold qualifying_tokens. induction texts as [|t texts IH]; [reflexivity|].
  cbn [flat_map]. rewrite filter_app, map_app. exact (f_equal2 (@app str) eq_refl IH).
Qed.

Lemma flat_map_map' {A B : Type} (f : A -> str) (g : str -> list B) l :
  flat_map g (map f l) = flat_map (fun x => g (f x)) l.
Proof. induction l as [|x l IH]; simpl; [reflexivity|rewrite IH; reflexivity]. Qed.

Lemma keyword_set_in ctx w : In w (keyword_set ctx) <-> In w (all_tokens ctx).
Proof.
  rewrite keyword_set_eq, related_fold_in, organic_fold_in.
  unfold all_tokens. rewrite !qualifying_tokens_flat, !flat_map_map', !in_app_iff.
  unfold related_or_nil. simpl. tauto.
Qed.

(** C6: for every iteration order of the set, the keyword list has at most
    15 entries, each lowercase and longer than 3 characters, and it is empty
    when the context has no organic results and no related searches. *)
Theorem keywords_bounded (set_iter : list str -> list str) :
  (forall l, NoDup l -> Permutation (set_iter l) l) ->
  forall ctx,
  length (extract_seo_keywords_from_serp set_iter ctx) <= 15 /\
  (forall w, In w (extract_seo_keywords_from_serp set_iter ctx) -> lower w = w /\ 3 < length w) /\
  ((organic ctx = None \/ organic ctx = Some []) ->
   (relatedSearches ctx = None \/ relatedSearches ctx = Some []) ->
   extract_seo_keywords_from_serp set_iter ctx = []).
Proof.
  intros Hperm ctx. unfold extract_seo_keywords_from_serp.
  pose proof (Hperm _ (keyword_set_nodup ctx)) as Hp.
  split; [|split].
  - rewrite length_firstn. lia.
  - intros w Hw. apply in_firstn_in in Hw.
    apply (Permutation_in _ Hp) in Hw. apply keyword_set_in in Hw.
    unfold all_tokens in Hw. rewrite !qualifying_tokens_flat, !in_app_iff in Hw.
    destruct Hw as [Hw|[Hw|Hw]]; apply in_flat_map in Hw; destruct Hw as (t & _ & Hw);
      exact (tok_in t w Hw).
  - intros Ho Hr.
    assert (E : keyword_set ctx = []).
    { unfold keyword_set. destruct Ho as [-> | ->]; destruct Hr as [-> | ->]; reflexivity. }
    rewrite E in Hp |- *. apply Permutation_sym, Permutation_nil in Hp. rewrite Hp. reflexivity.
Qed.

Lemma keywords_bounded_witness :
  (forall l : list str, NoDup l -> Permutation l l) /\
  length (extract_seo_keywords_from_serp (fun l => l) keyword_sample) <= 15.
Proof.
  assert (H : forall l : list str, NoDup l -> Permutation l l)
    by (intros l _; apply Permutation_refl).
  split; [exact H|].
  exact (proj1 (keywords_bounded (fun l => l) H keyword_sample)).
Defined.

(** C7 (as stated): the keyword list follows first appearance over titles,
    snippets and related queries. Refuted: the list is read off a Python
    set, whose order depends on the string hashes; with two tokens the
    reversed order is one of the possible iteration orders. *)
Lemma keywords_not_first_appearance :
  ~ (forall set_iter : list str -> list str,
       (forall l, NoDup l -> Permutation (set_iter l) l) ->
       forall ctx, extract_seo_keywords_from_serp set_iter ctx = keywords_first_appearance ctx).
Proof.
  intros H.
  specialize (H (@rev str) (fun l _ => Permutation_sym (Permutation_rev l)) order_sample).
  vm_compute in H. discriminate H.
Qed.

(** C7 (amended): whatever the set's iteration order, the keyword list holds
    distinct qualifying tokens of the titles, snippets and related queries,
    and there are [min 15 n] of them, [n] being the number of distinct
    qualifying tokens; their order is the set's iteration order. *)
Theorem keywords_set_order (set_iter : list str -> list str) :
  (forall l, NoDup l -> Permutation (set_iter l) l) ->
  forall ctx,
  extract_seo_keywords_from_serp set_iter ctx = firstn 15 (set_iter (keyword_set ctx)) /\
  Permutation (keyword_set ctx) (dedup (all_tokens ctx)) /\
  NoDup (extract_seo_keywords_from_serp set_iter ctx) /\
  (forall w, In w (extract_seo_keywords_from_serp set_iter ctx) -> In w (all_tokens ctx)) /\
  length (extract_seo_keywords_from_serp set_iter ctx) = min 15 (length (dedup (all_tokens ctx))).
Proof.
  intros Hperm ctx. unfold extract_seo_keywords_from_serp.
  pose proof (keyword_set_nodup ctx) as Hnd.
  pose proof (Hperm _ Hnd) as Hp.
  assert (Hd : Permutation (keyword_set ctx) (dedup (all_tokens ctx))).
  { apply NoDup_Permutation; [exact Hnd|apply fold_set_add_nodup; constructor|].
    intros w. rewrite keyword_set_in. unfold dedup. rewrite fold_set_add_in. simpl. tauto. }
  split; [reflexivity|split; [exact Hd|split; [|split]]].
  - rewrite <- (firstn_skipn 15 (set_iter (keyword_set ctx))) in Hp.
    apply Permutation_sym, Permutation_NoDup in Hp; [|exact Hnd].
    apply NoDup_app_remove_r in Hp. exact Hp.
  - intros w Hw. apply in_firstn_in in Hw. apply (Permutation_in _ Hp) in Hw.
    apply keyword_set_in, Hw.
  - rewrite length_firstn, (Permutation_length Hp), (Permutation_length Hd). reflexivity.
Qed.

Lemma keywords_set_order_witness :
  (forall l : list str, NoDup l -> Permutation (rev l) l) /\
  length (extract_seo_keywords_from_serp (@rev str) keyword_sample)
  = min 15 (length (dedup (all_tokens keyword_sample))).
Proof.
  assert (H : forall l : list str, NoDup l -> Permutation (rev l) l)
    by (intros l _; apply Permutation_sym, Permutation_rev).
  split; [exact H|].
  exact (proj2 (proj2 (proj2 (proj2 (keywords_set_order (@rev str) H keyword_sample))))).
Defined.

(** * Claims on the prompt *)

Lemma str_eqb_false x y : str_eqb x y = false <-> x <> y.
Proof.
  destruct (str_eqb x y) eqn:E.
  - apply str_eqb_true in E. split; [discriminate|intros H; contradiction].
  - split; [intros _ H; apply str_eqb_true in H; congruence|reflexivity].
Qed.

Lemma tone_section_spec tone :
  (tone_section tone = [] <-> tone = [] \/ tone = s2l "Default") /\
  (tone <> [] -> tone <> s2l "Default" ->
   tone_section tone = nl :: s2l "Tone/Style: " ++ tone ++ s2l ".").
Proof.
  unfold tone_section.
  destruct tone as [|c t]; [simpl; split; [tauto|intros H; congruence]|].
  cbn [is_nil negb andb].
  destruct (str_eqb (c :: t) (s2l "Default")) eqn:E; cbn [negb].
  - apply str_eqb_true in E. split; [tauto|intros _ H; contradiction].
  - apply str_eqb_false in E. split; [|reflexivity].
    split; [discriminate|intros [H|H]; [discriminate|contradiction]].
Qed.

Lemma length_section_spec len :
  In len length_options ->
  (length_section len = [] <-> len = s2l "Default") /\
  (len <> s2l "Default" -> length_section len = nl :: length_clause len).
Proof.
  intros H. simpl in H.
  destruct H as [<-|[<-|[<-|[<-|[]]]]]; vm_compute;
    (split; [split; [intros H; first [reflexivity|discriminate H]
                    |intros H; first [reflexivity|discriminate H]]
            |intros H; first [reflexivity|contradiction H; reflexivity]]).
Qed.

Lemma seo_section_spec include kws :
  (seo_section include kws = [] <-> include = false \/ kws = []) /\
  (include = true -> kws <> [] ->
   seo_section include kws =
   nl :: s2l "Incorporate these SEO keywords naturally: " ++ join (s2l ", ") kws ++ s2l ".").
Proof.
  unfold seo_section. destruct include, kws as [|k ks]; cbn [andb is_nil negb].
  - split; [tauto|intros _ H; contradiction H; reflexivity].
  - split; [|reflexivity]. split; [discriminate|intros [H|H]; discriminate H].
  - split; [tauto|discriminate].
  - split; [tauto|discriminate].
Qed.

(** C8: the prompt is the fixed header, then the tone, length and SEO
    clauses, then the blank line, the product details and the search
    research. For a tone and a length taken from the select boxes, each
    clause is empty exactly when its option is the default (for the SEO
    clause: when the flag is off or the keyword list is empty), and with all
    three at their defaults the header is followed directly by the blank
    line; otherwise the clause is its fixed text. *)
Theorem prompt_clauses (product platform language count : str) (tone len : str)
    (include : bool) (kws : list str) (details serp : str) :
  In tone tone_options -> In len length_options ->
  build_prompt product platform language count tone len include kws details serp =
    prompt_header product platform language count
    ++ tone_section tone ++ length_section len ++ seo_section include kws
    ++ [nl; nl] ++ details ++ [nl] ++ serp ++ [nl] /\
  (tone_section tone = [] <-> tone = s2l "Default") /\
  (tone <> s2l "Default" -> tone_section tone = nl :: s2l "Tone/Style: " ++ tone ++ s2l ".") /\
  (length_section len = [] <-> len = s2l "Default") /\
  (len <> s2l "Default" -> length_section len = nl :: length_clause len) /\
  (seo_section include kws = [] <-> include = false \/ kws = []) /\
  (include = true -> kws <> [] ->
   seo_section include kws =
   nl :: s2l "Incorporate these SEO keywords naturally: " ++ join (s2l ", ") kws ++ s2l ".") /\
  (tone = s2l "Default" -> len = s2l "Default" -> (include = false \/ kws = []) ->
   build_prompt product platform language count tone len include kws details serp =
   prompt_header product platform language count
   ++ [nl; nl] ++ details ++ [nl] ++ serp ++ [nl]).
Proof.
  intros Ht Hl.
  assert (Htn : tone <> []).
  { intros ->. simpl in Ht. destruct Ht as [H|[H|[H|[H|[H|[]]]]]]; discriminate H. }
  destruct (tone_section_spec tone) as [T1 T2].
  destruct (length_section_spec len Hl) as [L1 L2].
  destruct (seo_section_spec include kws) as [S1 S2].
  split; [reflexivity|].
  split; [rewrite T1; split; [intros [H|H]; [contradiction|exact H]|right; exact H]|].
  split; [intros H; exact (T2 Htn H)|].
  split; [exact L1|split; [exact L2|split; [exact S1|split; [exact S2|]]]].
  intros H1 H2 H3. unfold build_prompt.
  rewrite (proj2 T1 (or_intror H1)), (proj2 L1 H2), (proj2 S1 H3). reflexivity.
Qed.

Lemma prompt_clauses_witness :
  In (s2l "Casual") tone_options /\ In (s2l "Default") length_options /\
  tone_section (s2l "Casual") = nl :: s2l "Tone/Style: Casual.".
Proof.
  assert (Ht : In (s2l "Casual") tone_options) by (simpl; tauto).
  assert (Hl : In (s2l "Default") length_options) by (simpl; tauto).
  split; [exact Ht|split; [exact Hl|]].
  refine (proj1 (proj2 (proj2 (prompt_clauses (s2l "earbuds") (s2l "Amazon") (s2l "English")
            (s2l "5") (s2l "Casual") (s2l "Default") true [s2l "wireless"] [] [] Ht Hl))) _).
  vm_compute. discriminate.
Defined.

(** * Further properties of the code *)

(** ** Size of the parsed document *)

Lemma split_on_length c s : length (split_on c s) = count_occ ascii_dec s c + 1.
Proof.
  induction s as [|d s IH]; [reflexivity|].
  cbn [split_on count_occ].
  destruct (Ascii.eqb_spec d c) as [->|Hne].
  - destruct (ascii_dec c c) as [_|N]; [|contradiction]. cbn [Datatypes.length]. rewrite IH. reflexivity.
  - destruct (ascii_dec d c) as [E|_]; [contradiction|].
    pose proof (split_on_nonnil c s) as Hn.
    destruct (split_on c s) as [|p ps]; [contradiction|]. exact IH.
Qed.

Lemma pair_up_length parts : length (pair_up parts) = length parts / 2.
Proof.
  enough (G : forall n parts, length parts <= n -> length (pair_up parts) = length parts / 2)
    by exact (G _ parts (le_n _)).
  induction n as [|n IH]; intros l Hl.
  - destruct l; [reflexivity|cbn in Hl; lia].
  - destruct l as [|p [|p' rest]]; [reflexivity|reflexivity|].
    cbn [pair_up Datatypes.length] in *. rewrite IH by lia.
    replace (S (S (length rest))) with (1 * 2 + length rest) by lia.
    rewrite Nat.div_add_l by lia. reflexivity.
Qed.

Lemma strict_lines_length lines : length (strict_pairs_lines lines) <= length lines.
Proof.
  induction lines as [|l lines IH]; cbn [strict_pairs_lines Datatypes.length]; [lia|].
  destruct (re_match_groups l) as [[q a]|]; cbn [Datatypes.length]; lia.
Qed.

(** ** Strip keeps an inner text that starts and ends with a non-space *)

Lemma lstrip_stop x c y : is_space c = false -> exists x', lstrip (x ++ c :: y) = x' ++ c :: y.
Proof.
  intros Hc. induction x as [|a x IH]; cbn [app lstrip].
  - rewrite Hc. exists []. reflexivity.
  - destruct (is_space a); [exact IH|]. exists (a :: x). reflexivity.
Qed.

Lemma rstrip_stop x d y : is_space d = false -> exists y', rstrip (x ++ d :: y) = x ++ d :: y'.
Proof.
  intros Hd. unfold rstrip. rewrite rev_app_distr. cbn [rev]. rewrite <- app_assoc.
  cbn [app]. destruct (lstrip_stop (rev y) d (rev x) Hd) as (y' & E).
  rewrite E, rev_app_distr. cbn [rev]. rewrite rev_involutive, <- app_assoc.
  exists (rev y'). reflexivity.
Qed.

Lemma infix_r (a b w : str) :
  (exists x y, b = x ++ w ++ y) -> exists x y, a ++ b = x ++ w ++ y.
Proof. intros (x & y & ->). exists (a ++ x), y. rewrite <- app_assoc. reflexivity. Qed.

Lemma infix_l (a b w : str) :
  (exists x y, a = x ++ w ++ y) -> exists x y, a ++ b = x ++ w ++ y.
Proof. intros (x & y & ->). exists x, (y ++ b). rewrite <- !app_assoc. reflexivity. Qed.

Lemma strip_keep s w :
  w <> [] -> is_space (hd sp w) = false -> is_space (last w sp) = false ->
  (exists x y, s = x ++ w ++ y) -> exists pre post, strip s = pre ++ w ++ post.
Proof.
  intros Hw Hh Hl (x & y & ->).
  destruct w as [|c w0]; [contradiction|]. cbn [hd] in Hh.
  destruct (lstrip_stop x c (w0 ++ y) Hh) as (x' & E).
  unfold strip. cbn [app]. rewrite E.
  change (c :: w0 ++ y) with ((c :: w0) ++ y).
  destruct (exists_last (l := c :: w0) ltac:(discriminate)) as (w1 & d & Ew).
  rewrite Ew in Hl |- *. rewrite last_last in Hl.
  replace (x' ++ (w1 ++ [d]) ++ y) with ((x' ++ w1) ++ d :: y)
    by (rewrite <- !app_assoc; reflexivity).
  destruct (rstrip_stop (x' ++ w1) d y Hl) as (y' & E').
  rewrite E'. exists x', y'. change (c :: w0 ++ y') with ((c :: w0) ++ y').
  rewrite Ew, <- !app_assoc. reflexivity.
Qed.

Lemma bullet_lines_in texts t :
  In t texts -> exists x y, bullet_lines texts = x ++ (s2l "- " ++ t) ++ y.
Proof.
  intros H. apply in_split in H. destruct H as (l1 & l2 & ->).
  unfold bullet_lines. rewrite map_app, concat_app. cbn [map concat].
  exists (concat (map (fun t => s2l "- " ++ t ++ [nl]) l1)),
         (nl :: concat (map (fun t => s2l "- " ++ t ++ [nl]) l2)).
  rewrite <- !app_assoc. reflexivity.
Qed.

Lemma organic_lines_nth k items i item :
  nth_error items i = Some item ->
  exists x y, organic_lines k items = x ++ (dec (k + i) ++ s2l ". " ++ get_str (title item) ++ s2l ":") ++ y.
Proof.
  revert k i. induction items as [|it items IH]; intros k i H; [destruct i; discriminate H|].
  destruct i as [|i].
  - injection H as <-. rewrite Nat.add_0_r.
    exists [], (sp :: get_str (snippet it) ++ [nl] ++ organic_lines (S k) items).
    cbn [organic_lines]. rewrite <- !app_assoc. reflexivity.
  - cbn [nth_error] in H. destruct (IH (S k) i H) as (x & y & E).
    exists (dec k ++ s2l ". " ++ get_str (title it) ++ s2l ": " ++ get_str (snippet it) ++ [nl] ++ x), y.
    cbn [organic_lines]. rewrite E, Nat.add_succ_r. rewrite <- !app_assoc. reflexivity.
Qed.

Lemma nth_error_firstn_lt {A : Type} (l : list A) i k x :
  nth_error l i = Some x -> i < k -> nth_error (firstn k l) i = Some x.
Proof.
  revert i k. induction l as [|a l IH]; intros i k H Hk; [destruct i; discriminate H|].
  destruct k as [|k]; [lia|]. destruct i as [|i]; cbn in *; [exact H|].
  apply IH; [exact H|lia].
Qed.

(** ** API keys, search and session *)

Lemma strs_eqb_true x y : strs_eqb x y = true <-> x = y.
Proof. unfold strs_eqb. destruct (list_eq_dec (list_eq_dec ascii_dec) x y); split; congruence. Qed.

Lemma input_state_eqb_true a b : input_state_eqb a b = true <-> a = b.
Proof.
  unfold input_state_eqb.
  rewrite !andb_true_iff, !str_eqb_true, Nat.eqb_eq, Bool.eqb_true_iff, strs_eqb_true.
  split; [|intros <-; repeat split].
  destruct a, b; cbn. intros H. decompose [and] H. subst. reflexivity.
Qed.

Lemma detect_change_last s inp : last_input_state (detect_change s inp) = Some inp.
Proof.
  unfold detect_change. destruct (last_input_state s) as [l|] eqn:E; [|reflexivity].
  destruct (input_state_eqb l inp) eqn:F; [|reflexivity].
  apply input_state_eqb_true in F. subst l. exact E.
Qed.

Lemma main_run_cases s inp c g :
  main_run s inp c g = detect_change s inp \/
  exists f, g = Some f /\ f <> [] /\ c = true /\
    (in_product_keywords inp <> [] \/ in_product_url inp <> []) /\
    main_run s inp c g =
      {| last_input_state := Some inp; product_faqs := Some f;
         jsonld := Some (faqs_to_jsonld f (in_product_keywords inp)); faqs_ready := true |}.
Proof.
  unfold main_run, generate_click. destruct c; [|left; reflexivity].
  destruct (is_nil (in_product_keywords inp) && is_nil (in_product_url inp)) eqn:E;
    [left; reflexivity|].
  destruct g as [[|x f]|]; [left; reflexivity| |left; reflexivity].
  right. exists (x :: f). split; [reflexivity|split; [discriminate|split; [reflexivity|split]]].
  - apply andb_false_iff in E.
    destruct E as [E|E]; [left|right]; intros H; rewrite H in E; discriminate E.
  - rewrite detect_change_last. reflexivity.
Qed.

Lemma shown_detect_change s inp f :
  shown_faqs (detect_change s inp) = Some f -> detect_change s inp = s /\ last_input_state s = Some inp.
Proof.
  unfold detect_change. destruct (last_input_state s) as [l|] eqn:E; [|discriminate].
  destruct (input_state_eqb l inp) eqn:F; [|discriminate].
  apply input_state_eqb_true in F. subst l. intros _. split; reflexivity.
Qed.

Lemma add_feature_fold ul acc :
  length acc <= 10 ->
  fold_left add_feature ul acc =
  acc ++ firstn (10 - length acc) (filter (fun t => negb (is_nil t) && (25 <? length t)) ul).
Proof.
  revert acc. induction ul as [|t ul IH]; intros acc Hl; cbn [fold_left filter].
  - rewrite firstn_nil, app_nil_r. reflexivity.
  - unfold add_feature at 2.
    destruct (negb (is_nil t) && (25 <? length t)) eqn:Q; cbn [andb].
    + destruct (length acc <? 10) eqn:L.
      * apply Nat.ltb_lt in L. rewrite IH by (rewrite length_app; cbn; lia).
        rewrite length_app. cbn [Datatypes.length].
        replace (10 - length acc) with (S (10 - (length acc + 1))) by lia.
        cbn [firstn]. rewrite <- app_assoc. reflexivity.
      * apply Nat.ltb_ge in L. rewrite IH by exact Hl.
        replace (10 - length acc) with 0 by lia. reflexivity.
    + destruct (length acc <? 10); apply IH, Hl.
Qed.

(** ** Theorems *)

(** The number of FAQ entries: at most one per line when some line matches
    the numbered pattern; otherwise, with [n] question marks in the text,
    the fallback gives [(n + 1) / 2] entries. *)
Theorem parse_faqs_count faqs :
  (strict_pairs faqs <> [] -> length (parse_faqs faqs) <= count_occ ascii_dec faqs nl + 1) /\
  (strict_pairs faqs = [] -> length (parse_faqs faqs) = (count_occ ascii_dec faqs qm + 1) / 2).
Proof.
  unfold parse_faqs. split; intros H.
  - destruct (strict_pairs faqs) as [|p ps] eqn:E; [contradiction|].
    rewrite <- E, <- split_on_length. apply strict_lines_length.
  - rewrite H. unfold fallback_pairs. rewrite pair_up_length, split_on_length. reflexivity.
Qed.

(** With no organic results, the uniqueness checker reports every non-blank
    line unique and every blank line not unique, and the display flags no
    line as a duplicate. *)
Theorem uniqueness_without_organic faqs ctx :
  organic_or_nil ctx = [] ->
  forall line is_unique, In (line, is_unique) (check_faq_uniqueness faqs ctx) ->
  is_unique = negb (is_nil (strip line)) /\ display_flagged line is_unique = false.
Proof.
  intros H line u Hin. unfold check_faq_uniqueness in Hin.
  apply in_map_iff in Hin. destruct Hin as (l & E & _). injection E as <- <-.
  unfold serp_text. rewrite H. cbn [map join lower].
  unfold display_flagged. destruct (strip l); split; reflexivity.
Qed.

Lemma uniqueness_without_organic_witness :
  organic_or_nil empty_context = [] /\ display_flagged (s2l "1. Q? A") true = false.
Proof.
  assert (H : organic_or_nil empty_context = []) by reflexivity.
  split; [exact H|].
  refine (proj2 (uniqueness_without_organic (s2l "1. Q? A") empty_context H (s2l "1. Q? A") true _)).
  left. reflexivity.
Defined.

(** The competitor table holds the first five organic results, in order,
    each with its title, link and snippet ([""] when missing). *)
Theorem competitors_first_five ctx :
  length (extract_competitors_from_serp ctx) = min 5 (length (organic_or_nil ctx)) /\
  (forall i item, nth_error (organic_or_nil ctx) i = Some item -> i < 5 ->
   nth_error (extract_competitors_from_serp ctx) i =
   Some {| comp_title := get_str (title item); comp_url := get_str (link item);
           comp_snippet := get_str (snippet item) |}).
Proof.
  assert (E : extract_competitors_from_serp ctx = map competitor_of (firstn 5 (organic_or_nil ctx))).
  { unfold extract_competitors_from_serp, organic_or_nil.
    destruct (organic ctx) as [[|it l]|]; reflexivity. }
  rewrite E. split.
  - rewrite length_map, length_firstn. reflexivity.
  - intros i item H Hi. rewrite nth_error_map, (nth_error_firstn_lt _ _ _ _ H Hi). reflexivity.
Qed.

(** Organic results after the fifth reach neither the prompt's research
    section nor the competitor table: two contexts with the same first five
    organic results and the same related searches give the same section and
    the same table. *)
Theorem serp_uses_first_five ctx ctx' people_also_ask :
  firstn 5 (organic_or_nil ctx) = firstn 5 (organic_or_nil ctx') ->
  relatedSearches ctx = relatedSearches ctx' ->
  format_serp_for_prompt ctx people_also_ask = format_serp_for_prompt ctx' people_also_ask /\
  extract_competitors_from_serp ctx = extract_competitors_from_serp ctx'.
Proof.
  intros H Hr. unfold format_serp_for_prompt, extract_competitors_from_serp.
  rewrite Hr. unfold organic_or_nil in H.
  destruct (organic ctx) as [[|a l]|], (organic ctx') as [[|b l']|]; cbv beta iota zeta in *;
    first [split; reflexivity | rewrite H; split; reflexivity | simpl in H; discriminate H].
Qed.

Lemma serp_uses_first_five_witness :
  let item := {| title := Some (s2l "A"); snippet := None; link := None |} in
  let ctx := {| organic := Some (repeat item 6); relatedSearches := None; peopleAlsoAsk := None |} in
  let ctx' := {| organic := Some (repeat item 5); relatedSearches := None; peopleAlsoAsk := None |} in
  firstn 5 (organic_or_nil ctx) = firstn 5 (organic_or_nil ctx') /\
  format_serp_for_prompt ctx [] = format_serp_for_prompt ctx' [].
Proof.
  intros item ctx ctx'.
  assert (H : firstn 5 (organic_or_nil ctx) = firstn 5 (organic_or_nil ctx')) by reflexivity.
  split; [exact H|].
  exact (proj1 (serp_uses_first_five ctx ctx' [] H eq_refl)).
Defined.

(** The research section lists the organic result of index [i < 5] as a
    line ["<i+1>. <title>:"], numbered from 1. *)
Theorem serp_organic_numbered ctx people_also_ask i item :
  nth_error (organic_or_nil ctx) i = Some item -> i < 5 ->
  exists pre post, format_serp_for_prompt ctx people_also_ask =
    pre ++ (dec (S i) ++ s2l ". " ++ get_str (title item) ++ s2l ":") ++ post.
Proof.
  intros H Hi.
  assert (Hw : dec (S i) ++ s2l ". " ++ get_str (title item) ++ s2l ":" <> [] /\
               is_space (hd sp (dec (S i) ++ s2l ". " ++ get_str (title item) ++ s2l ":")) = false /\
               is_space (last (dec (S i) ++ s2l ". " ++ get_str (title item) ++ s2l ":") sp) = false).
  { replace (s2l ":") with [":"%char] by reflexivity. rewrite !app_assoc, last_last.
    destruct i as [|[|[|[|[|i]]]]]; try lia; repeat split;
      try reflexivity; apply not_eq_sym, app_cons_not_nil. }
  destruct Hw as (Hw1 & Hw2 & Hw3).
  unfold format_serp_for_prompt. unfold organic_or_nil in H.
  destruct (organic ctx) as [[|it l]|]; [destruct i; discriminate H| |destruct i; discriminate H].
  cbv beta iota zeta. apply strip_keep; [exact Hw1|exact Hw2|exact Hw3|].
  apply infix_l, infix_r, infix_r.
  destruct (organic_lines_nth 1 (firstn 5 (it :: l)) i item
              (nth_error_firstn_lt _ _ _ _ H Hi)) as (x & y & E).
  rewrite E, Nat.add_1_l. exists x, y. reflexivity.
Qed.

Lemma serp_organic_numbered_witness :
  let item := {| title := Some (s2l "Best buds"); snippet := Some (s2l "Great."); link := None |} in
  let ctx := {| organic := Some [item; item]; relatedSearches := None; peopleAlsoAsk := None |} in
  nth_error (organic_or_nil ctx) 1 = Some item /\ 1 < 5 /\
  exists pre post, format_serp_for_prompt ctx [] = pre ++ s2l "2. Best buds:" ++ post.
Proof.
  intros item ctx.
  assert (H : nth_error (organic_or_nil ctx) 1 = Some item) by reflexivity.
  split; [exact H|split; [lia|]].
  exact (serp_organic_numbered ctx [] 1 item H ltac:(lia)).
Defined.

(** Every People-Also-Ask entry whose text ends in a non-space character is
    listed in the research section as a line ["- <text>"]; an entry whose
    item has no question is listed as ["- None"]. *)
Theorem serp_lists_people_also_ask ctx people_also_ask q :
  In q people_also_ask ->
  (exists t d, py_str q = t ++ [d] /\ is_space d = false) ->
  exists pre post, format_serp_for_prompt ctx people_also_ask = pre ++ (s2l "- " ++ py_str q) ++ post.
Proof.
  intros H (t & d & Et & Hd).
  destruct people_also_ask as [|q0 paa]; [destruct H|].
  unfold format_serp_for_prompt. cbv beta iota zeta.
  apply strip_keep.
  - discriminate.
  - reflexivity.
  - rewrite Et, app_assoc, last_last. exact Hd.
  - apply infix_r, infix_r, infix_r, infix_r, infix_r.
    destruct (bullet_lines_in (map py_str (q0 :: paa)) (py_str q) (in_map _ _ _ H)) as (x & y & E).
    rewrite E. exists x, y. reflexivity.
Qed.

Lemma serp_lists_people_also_ask_witness :
  In None [Some (s2l "Is it waterproof?"); None] /\
  exists pre post, format_serp_for_prompt empty_context [Some (s2l "Is it waterproof?"); None]
                   = pre ++ (s2l "- " ++ py_str None) ++ post.
Proof.
  assert (H : In None [Some (s2l "Is it waterproof?"); None]) by (right; left; reflexivity).
  split; [exact H|].
  apply (serp_lists_people_also_ask empty_context _ None H).
  exists (s2l "Non"), "e"%char. split; reflexivity.
Defined.

(** Every related-search query ending in a non-space character is listed in
    the research section as a line ["- <query>"]. *)
Theorem serp_lists_related_searches ctx people_also_ask rs s :
  relatedSearches ctx = Some rs -> In s rs ->
  (exists t d, get_str (query s) = t ++ [d] /\ is_space d = false) ->
  exists pre post, format_serp_for_prompt ctx people_also_ask =
    pre ++ (s2l "- " ++ get_str (query s)) ++ post.
Proof.
  intros Hr H (t & d & Et & Hd).
  destruct rs as [|r rs]; [destruct H|].
  unfold format_serp_for_prompt. rewrite Hr. cbv beta iota zeta.
  apply strip_keep.
  - discriminate.
  - reflexivity.
  - rewrite Et, app_assoc, last_last. exact Hd.
  - apply infix_r, infix_l, infix_r, infix_r, infix_r.
    destruct (bullet_lines_in (map (fun s => get_str (query s)) (r :: rs)) (get_str (query s))
                (in_map (fun s => get_str (query s)) _ _ H)) as (x & y & E).
    rewrite E. exists x, y. reflexivity.
Qed.

Lemma serp_lists_related_searches_witness :
  let r := {| query := Some (s2l "earbuds under 50") |} in
  let ctx := {| organic := None; relatedSearches := Some [r]; peopleAlsoAsk := None |} in
  relatedSearches ctx = Some [r] /\ In r [r] /\
  exists pre post, format_serp_for_prompt ctx [] = pre ++ (s2l "- " ++ get_str (query r)) ++ post.
Proof.
  intros r ctx.
  assert (Hr : relatedSearches ctx = Some [r]) by reflexivity.
  assert (H : In r [r]) by (left; reflexivity).
  split; [exact Hr|split; [exact H|]].
  apply (serp_lists_related_searches ctx [] [r] r Hr H).
  exists (s2l "earbuds under 5"), "0"%char. split; reflexivity.
Defined.

(** Without product keywords, or when the search is not made or fails (no
    usable key, request error, status other than 200, unreadable body), the
    research step of [main] yields no People-Also-Ask entries, no SEO
    keywords, no competitors and an empty research section. *)
Theorem research_without_results (paa_question : str -> option str)
    (set_iter : list str -> list str) :
  (forall l, NoDup l -> Permutation (set_iter l) l) ->
  forall product_keywords user_key env_key post,
  (product_keywords = [] \/ api_key user_key env_key = None \/
   exists key, api_key user_key env_key = Some key /\
               forall body, post product_keywords key <> HttpResponse 200 (Some body)) ->
  exists serp_results,
    main_research paa_question set_iter product_keywords user_key env_key post
      = (serp_results, [], [], []) /\
    (serp_results = empty_context \/ serp_results = search_fallback) /\
    format_serp_for_prompt serp_results [] = [].
Proof.
  intros Hperm pk user env post H.
  destruct pk as [|c pk'].
  - exists empty_context. split; [reflexivity|split; [left; reflexivity|reflexivity]].
  - assert (Hs : perform_serperdev_google_search (c :: pk') user env post = search_fallback).
    { unfold perform_serperdev_google_search.
      destruct H as [H|[H|(key & Hk & Hp)]]; [discriminate H|rewrite H; reflexivity|].
      rewrite Hk. destruct (post (c :: pk') key) as [|code [body|]] eqn:Ep; try reflexivity.
      destruct (code =? 200) eqn:Ec; [|reflexivity].
      apply Nat.eqb_eq in Ec. subst code. exfalso. exact (Hp body eq_refl). }
    assert (Hk : extract_seo_keywords_from_serp set_iter search_fallback = []).
    { unfold extract_seo_keywords_from_serp.
      change (keyword_set search_fallback) with (@nil str).
      pose proof (Hperm [] (NoDup_nil _)) as P.
      apply Permutation_sym, Permutation_nil in P. rewrite P. reflexivity. }
    exists search_fallback. unfold main_research, get_serp_results. rewrite Hs.
    cbn -[extract_seo_keywords_from_serp format_serp_for_prompt]. rewrite Hk.
    split; [reflexivity|split; [right; reflexivity|reflexivity]].
Qed.

Lemma research_without_results_witness :
  (forall l : list str, NoDup l -> Permutation l l) /\
  api_key [] None = None /\
  exists serp_results,
    main_research (fun _ => None) (fun l => l) (s2l "earbuds") [] None (fun _ _ => RequestFailed)
      = (serp_results, [], [], []) /\
    (serp_results = empty_context \/ serp_results = search_fallback) /\
    format_serp_for_prompt serp_results [] = [].
Proof.
  assert (Hp : forall l : list str, NoDup l -> Permutation l l) by (intros l _; apply Permutation_refl).
  assert (Hk : api_key [] None = None) by reflexivity.
  split; [exact Hp|split; [exact Hk|]].
  exact (research_without_results (fun _ => None) (fun l => l) Hp (s2l "earbuds") [] None
           (fun _ _ => RequestFailed) (or_intror (or_introl Hk))).
Defined.

(** Without a Gemini key (the sidebar field empty and the environment
    variable unset or empty) no text is generated, and pressing the generate
    button leaves the session as a run without the button would. *)
Theorem generate_without_key s inp user_key env_key fetch serp_results people_also_ask send :
  user_key = [] -> (env_key = None \/ env_key = Some []) ->
  let generated :=
    generate_product_faqs (in_product_keywords inp) (in_ecommerce_platform inp) user_key env_key
      (in_product_url inp) fetch serp_results people_also_ask (in_faq_language inp)
      (in_faq_count inp) (in_faq_tone inp) (in_faq_length inp) (in_include_seo_keywords inp)
      (in_seo_keywords inp) send in
  generated = None /\ main_run s inp true generated = main_run s inp false generated.
Proof.
  intros Hu He generated.
  assert (G : generated = None).
  { unfold generated, generate_product_faqs, generate_text_with_exception_handling.
    subst user_key. destruct He as [-> | ->]; reflexivity. }
  split; [exact G|]. rewrite G. unfold main_run, generate_click.
  destruct (is_nil (in_product_keywords inp) && is_nil (in_product_url inp)); reflexivity.
Qed.

Lemma generate_without_key_witness :
  let inp := {| in_product_keywords := s2l "earbuds"; in_ecommerce_platform := s2l "Amazon";
                in_product_url := []; in_faq_count := 5; in_faq_language := s2l "English";
                in_faq_tone := s2l "Default"; in_faq_length := s2l "Default";
                in_include_seo_keywords := true; in_seo_keywords := [] |} in
  (@nil ascii) = [] /\ (@None str = None \/ @None str = Some []) /\
  generate_product_faqs (in_product_keywords inp) (in_ecommerce_platform inp) [] None
    (in_product_url inp) (fun _ => FetchFailed) empty_context [] (in_faq_language inp)
    (in_faq_count inp) (in_faq_tone inp) (in_faq_length inp) (in_include_seo_keywords inp)
    (in_seo_keywords inp) (fun _ _ => Reply (s2l "1. Q? A")) = None.
Proof.
  intros inp. split; [reflexivity|split; [left; reflexivity|]].
  exact (proj1 (generate_without_key init_session inp [] None (fun _ => FetchFailed) empty_context []
                  (fun _ _ => Reply (s2l "1. Q? A")) eq_refl (or_introl eq_refl))).
Defined.

(** The features read from a product page: at most ten, each longer than 25
    characters, all taken in order from one [<ul>] list, the first one that
    has such an item; the earlier lists have none. *)
Theorem product_features_from_one_list code pg d :
  extract_product_details_from_url (Fetched code pg) = Some d ->
  code = 200 /\ length (pd_features d) <= 10 /\
  (forall t, In t (pd_features d) -> 25 < length t) /\
  ((pd_features d = [] /\
    forall ul, In ul (pg_lists pg) -> filter (fun t => negb (is_nil t) && (25 <? length t)) ul = []) \/
   exists pre ul post, pg_lists pg = pre ++ ul :: post /\
     (forall u, In u pre -> filter (fun t => negb (is_nil t) && (25 <? length t)) u = []) /\
     pd_features d = firstn 10 (filter (fun t => negb (is_nil t) && (25 <? length t)) ul) /\
     pd_features d <> []).
Proof.
  unfold extract_product_details_from_url. destruct (code =? 200) eqn:Ec; [|discriminate].
  intros H. injection H as <-. cbn [pd_features]. apply Nat.eqb_eq in Ec.
  assert (Hc : forall uls,
    (collect_features uls [] = [] /\
     forall ul, In ul uls -> filter (fun t => negb (is_nil t) && (25 <? length t)) ul = []) \/
    exists pre ul post, uls = pre ++ ul :: post /\
      (forall u, In u pre -> filter (fun t => negb (is_nil t) && (25 <? length t)) u = []) /\
      collect_features uls [] = firstn 10 (filter (fun t => negb (is_nil t) && (25 <? length t)) ul) /\
      collect_features uls [] <> []).
  { induction uls as [|ul uls IH]; [left; split; [reflexivity|intros _ []]|].
    cbn [collect_features]. rewrite add_feature_fold by (cbn; lia).
    rewrite app_nil_l. change (10 - length (@nil str)) with 10.
    destruct (filter (fun t => negb (is_nil t) && (25 <? length t)) ul) as [|t ts] eqn:Ef.
    - cbn [firstn is_nil].
      destruct IH as [(IH1 & IH2)|(pre & u & post & -> & Hpre & Hf & Hne)].
      + left. split; [exact IH1|]. intros u [<-|Hu]; [exact Ef|exact (IH2 u Hu)].
      + right. exists (ul :: pre), u, post. split; [reflexivity|].
        split; [intros v [<-|Hv]; [exact Ef|exact (Hpre v Hv)]|split; [exact Hf|exact Hne]].
    - right. exists [], ul, uls. split; [reflexivity|].
      split; [intros _ []|]. rewrite Ef. cbn [firstn is_nil].
      split; [reflexivity|discriminate]. }
  assert (Hlen : forall l : list str, length (firstn 10 l) <= 10)
    by (intros l; rewrite length_firstn; lia).
  assert (Hlong : forall (ul : list str) (t : str),
            In t (firstn 10 (filter (fun t => negb (is_nil t) && (25 <? length t)) ul)) ->
            25 < length t).
  { intros ul t Ht. apply in_firstn_in, filter_In in Ht. destruct Ht as [_ Ht].
    apply andb_true_iff in Ht. destruct Ht as [_ Ht]. apply Nat.ltb_lt, Ht. }
  split; [exact Ec|].
  destruct (Hc (pg_lists pg)) as [(H1 & H2)|(pre & ul & post & E & Hpre & Hf & Hne)].
  - rewrite H1. split; [cbn; lia|split; [intros t []|left; split; [reflexivity|exact H2]]].
  - rewrite Hf. split; [apply Hlen|split; [apply Hlong|]].
    right. exists pre, ul, post.
    split; [exact E|split; [exact Hpre|split; [reflexivity|rewrite <- Hf; exact Hne]]].
Qed.

Lemma product_features_from_one_list_witness :
  let pg := {| pg_title := Some (s2l "Buds"); pg_description := None;
               pg_lists := [[s2l "Home"; s2l "Shop"];
                            [s2l "Active noise cancelling up to 35 dB"; s2l "Short"]];
               pg_price_hits := [None; Some (s2l "49.99")]; pg_rating_hits := [] |} in
  exists d, extract_product_details_from_url (Fetched 200 pg) = Some d /\
            length (pd_features d) <= 10.
Proof.
  intros pg. eexists. split; [reflexivity|].
  exact (proj1 (proj2 (product_features_from_one_list 200 pg _ eq_refl))).
Defined.

(** The product-details block of the prompt is empty exactly when there is
    no product URL or the page was not fetched with status 200; a fetched
    page adds the block header even when nothing was found on it. *)
Theorem details_block (product_url : str) fetch :
  let product_details :=
    if is_nil product_url then None else extract_product_details_from_url (fetch product_url) in
  (details_section product_details = [] <->
   product_url = [] \/ forall pg, fetch product_url <> Fetched 200 pg) /\
  (forall pg, product_url <> [] -> fetch product_url = Fetched 200 pg ->
   exists rest, details_section product_details = s2l "Product Details from URL:" ++ nl :: rest).
Proof.
  intros pd. unfold pd. destruct product_url as [|c u]; cbn [is_nil].
  - split; [split; [intros _; left; reflexivity|reflexivity]|intros pg H; contradiction H; reflexivity].
  - split.
    + destruct (fetch (c :: u)) as [|code pg] eqn:F; cbn [extract_product_details_from_url].
      * split; [intros _; right; intros pg H; discriminate H|reflexivity].
      * destruct (code =? 200) eqn:Ec.
        -- apply Nat.eqb_eq in Ec. subst code. split; [discriminate|].
           intros [H|H]; [discriminate H|exfalso; exact (H pg eq_refl)].
        -- split; [intros _; right|reflexivity].
           intros pg' H. injection H as -> _. discriminate Ec.
    + intros pg _ F. rewrite F. cbn [extract_product_details_from_url Nat.eqb].
      eexists. reflexivity.
Qed.

Lemma details_block_witness :
  let pg := {| pg_title := None; pg_description := None; pg_lists := [];
               pg_price_hits := []; pg_rating_hits := [] |} in
  s2l "x" <> [] /\
  exists rest, details_section (if is_nil (s2l "x") then None
                                else extract_product_details_from_url (Fetched 200 pg))
               = s2l "Product Details from URL:" ++ nl :: rest.
Proof.
  intros pg. split; [discriminate|].
  exact (proj2 (details_block (s2l "x") (fun _ => Fetched 200 pg)) pg ltac:(discriminate) eq_refl).
Defined.

(** A rerun without the generate button keeps the session, results
    included, when the inputs are those of the previous run, and clears the
    results when any input changed. *)
Theorem rerun_keeps_or_clears s inp generated :
  (last_input_state s = Some inp -> main_run s inp false generated = s) /\
  (last_input_state s <> Some inp ->
   main_run s inp false generated =
   {| last_input_state := Some inp; product_faqs := None; jsonld := None; faqs_ready := false |}).
Proof.
  unfold main_run, generate_click, detect_change. split; intros H.
  - rewrite H. rewrite (proj2 (input_state_eqb_true inp inp) eq_refl). reflexivity.
  - destruct (last_input_state s) as [l|]; [|reflexivity].
    destruct (input_state_eqb l inp) eqn:E; [|reflexivity].
    apply input_state_eqb_true in E. subst l. contradiction H. reflexivity.
Qed.

Lemma rerun_keeps_or_clears_witness :
  let inp := {| in_product_keywords := s2l "earbuds"; in_ecommerce_platform := s2l "Amazon";
                in_product_url := []; in_faq_count := 5; in_faq_language := s2l "English";
                in_faq_tone := s2l "Default"; in_faq_length := s2l "Default";
                in_include_seo_keywords := true; in_seo_keywords := [] |} in
  let s := main_run init_session inp true (Some (s2l "1. Q? A")) in
  last_input_state s = Some inp /\ main_run s inp false None = s.
Proof.
  intros inp s.
  assert (H : last_input_state s = Some inp) by reflexivity.
  split; [exact H|exact (proj1 (rerun_keeps_or_clears s inp None) H)].
Defined.

(** Pressing the generate button changes nothing beyond a plain rerun when
    neither product keywords nor a product URL were given, or when the
    generation returned nothing (or an empty text). *)
Theorem click_without_output s inp generated :
  (in_product_keywords inp = [] /\ in_product_url inp = []) \/
  generated = None \/ generated = Some [] ->
  main_run s inp true generated = main_run s inp false generated.
Proof.
  intros H. unfold main_run, generate_click.
  destruct H as [[Hk Hu]|[-> | ->]].
  - rewrite Hk, Hu. reflexivity.
  - destruct (is_nil (in_product_keywords inp) && is_nil (in_product_url inp)); reflexivity.
  - destruct (is_nil (in_product_keywords inp) && is_nil (in_product_url inp)); reflexivity.
Qed.

Lemma click_without_output_witness :
  let inp := {| in_product_keywords := []; in_ecommerce_platform := s2l "Amazon";
                in_product_url := []; in_faq_count := 5; in_faq_language := s2l "English";
                in_faq_tone := s2l "Default"; in_faq_length := s2l "Default";
                in_include_seo_keywords := true; in_seo_keywords := [] |} in
  (in_product_keywords inp = [] /\ in_product_url inp = []) /\
  main_run init_session inp true (Some (s2l "1. Q? A"))
  = main_run init_session inp false (Some (s2l "1. Q? A")).
Proof.
  intros inp.
  assert (H : in_product_keywords inp = [] /\ in_product_url inp = []) by (split; reflexivity).
  split; [exact H|].
  exact (click_without_output init_session inp (Some (s2l "1. Q? A")) (or_introl H)).
Defined.

(** Over any sequence of runs, the FAQs shown were generated by a press of
    the button under the current inputs (with keywords or a URL), no input
    changed since, and the JSON-LD stored beside them is the document of
    exactly these FAQs. *)
Theorem shown_faqs_match_inputs events f :
  shown_faqs (main_runs events) = Some f ->
  exists pre inp post,
    events = pre ++ (inp, true, Some f) :: post /\
    (in_product_keywords inp <> [] \/ in_product_url inp <> []) /\
    (forall e, In e post -> fst (fst e) = inp) /\
    last_input_state (main_runs events) = Some inp /\
    jsonld (main_runs events) = Some (faqs_to_jsonld f (in_product_keywords inp)).
Proof.
  induction events as [|e events IH] using rev_ind; [discriminate|].
  unfold main_runs. rewrite fold_left_app. cbn [fold_left]. fold (main_runs events).
  destruct e as [[inp c] g]. cbn [run_event].
  destruct (main_run_cases (main_runs events) inp c g)
    as [E|(f' & -> & Hne & -> & Hin & E)]; rewrite E; intros H.
  - destruct (shown_detect_change _ _ _ H) as [Hd Hl]. rewrite Hd in H |- *.
    destruct (IH H) as (pre & inp0 & post & Ev & Hin & Hpost & Hl0 & Hj).
    rewrite Hl in Hl0. injection Hl0 as <-.
    exists pre, inp, (post ++ [(inp, c, g)]). split; [rewrite Ev, <- app_assoc; reflexivity|].
    split; [exact Hin|split; [|split; [exact Hl|exact Hj]]].
    intros e He. apply in_app_or in He. destruct He as [He|[<-|[]]]; [exact (Hpost e He)|reflexivity].
  - unfold shown_faqs in H. cbn in H. destruct f' as [|x r]; [contradiction Hne; reflexivity|].
    injection H as <-. exists events, inp, []. split; [reflexivity|].
    split; [exact Hin|split; [intros _ []|split; reflexivity]].
Qed.

Lemma shown_faqs_match_inputs_witness :
  let inp := {| in_product_keywords := s2l "earbuds"; in_ecommerce_platform := s2l "Amazon";
                in_product_url := []; in_faq_count := 5; in_faq_language := s2l "English";
                in_faq_tone := s2l "Default"; in_faq_length := s2l "Default";
                in_include_seo_keywords := true; in_seo_keywords := [] |} in
  let events := [(inp, true, Some (s2l "1. Q? A")); (inp, false, None)] in
  shown_faqs (main_runs events) = Some (s2l "1. Q? A") /\
  jsonld (main_runs events) = Some (faqs_to_jsonld (s2l "1. Q? A") (s2l "earbuds")).
Proof.
  intros inp events.
  assert (H : shown_faqs (main_runs events) = Some (s2l "1. Q? A")) by reflexivity.
  split; [exact H|].
  destruct (shown_faqs_match_inputs events _ H) as (pre & i & post & Ev & _ & _ & Hl & Hj).
  assert (Hi : i = inp).
  { assert (Hl' : last_input_state (main_runs events) = Some inp) by reflexivity.
    rewrite Hl in Hl'. injection Hl' as ->. reflexivity. }
  rewrite Hj, Hi. reflexivity.
Defined.
